(** * Helixar Blueprint Insight: timeline, playback, properties panel,
      dashboard statistics and realtime relay

    A shallow embedding of the interaction logic of the dashboard
    (src/components/Timeline.tsx, BlueprintTerminal.tsx,
    PropertiesPanel.tsx, Dashboard.tsx and src/pages/api/websocket.ts)
    together with the properties its design document states about it. *)

From Stdlib Require Import ZArith QArith Qcanon Qround Qpower Qabs Lqa Lia List.
From Stdlib Require Import Ascii String.
From stdpp Require Import base numbers strings pretty list gmap.

Local Open Scope Z_scope.

(** ** JavaScript values *)

Module JS.

(** A JavaScript [number].  The finite values are modelled by exact
    rationals (the two signed zeros are identified), and the operations
    of this module do not round; the three special values of IEEE
    arithmetic are kept, since the code can produce them by dividing by
    zero.  The rounding of double precision, and the operations with
    it, are in [Binary64] below. *)
Inductive number : Type :=
  | Fin (q : Qc)
  | PInf
  | NInf
  | NaN.

Definition of_Z (z : Z) : number := Fin (Qc_of_Z z).
Definition of_nat (n : nat) : number := of_Z (Z.of_nat n).

(** Sign of a rational, as a comparison with zero. *)
Definition Qcsgn (q : Qc) : comparison := (q ?= 0)%Qc.

Definition neg (x : number) : number :=
  match x with
  | Fin q => Fin (- q)%Qc
  | PInf => NInf
  | NInf => PInf
  | NaN => NaN
  end.

(** [x + y] *)
Definition add (x y : number) : number :=
  match x, y with
  | NaN, _ | _, NaN => NaN
  | Fin a, Fin b => Fin (a + b)%Qc
  | PInf, NInf | NInf, PInf => NaN
  | PInf, _ | _, PInf => PInf
  | NInf, _ | _, NInf => NInf
  end.

(** [x - y] *)
Definition sub (x y : number) : number := add x (neg y).

(** An infinity of the given sign; the product or quotient of a zero
    and an infinity is NaN. *)
Definition signed_inf (s : comparison) : number :=
  match s with
  | Gt => PInf
  | Lt => NInf
  | Eq => NaN
  end.

Definition sgn (x : number) : comparison :=
  match x with
  | Fin q => Qcsgn q
  | PInf => Gt
  | NInf => Lt
  | NaN => Eq
  end.

Definition sgn_mul (s t : comparison) : comparison :=
  match s, t with
  | Eq, _ | _, Eq => Eq
  | Gt, Gt | Lt, Lt => Gt
  | Gt, Lt | Lt, Gt => Lt
  end.

(** [x * y] *)
Definition mul (x y : number) : number :=
  match x, y with
  | NaN, _ | _, NaN => NaN
  | Fin a, Fin b => Fin (a * b)%Qc
  | _, _ => signed_inf (sgn_mul (sgn x) (sgn y))
  end.

(** [x / y]: a finite non-zero number divided by zero is an infinity,
    zero by zero is NaN. *)
Definition div (x y : number) : number :=
  match x, y with
  | NaN, _ | _, NaN => NaN
  | Fin a, Fin b =>
      match Qcsgn b with
      | Eq => signed_inf (Qcsgn a)
      | _ => Fin (a / b)%Qc
      end
  | Fin _, _ => Fin 0%Qc
  | _, Fin b =>
      match Qcsgn b with
      | Lt => neg x
      | _ => x
      end
  | _, _ => NaN
  end.

(** Integer part towards zero. *)
Definition Qctrunc (q : Qc) : Z :=
  match Qcsgn q with
  | Lt => Qceiling q
  | _ => Qfloor q
  end.

(** [x % y]: the remainder has the sign of the dividend. *)
Definition rem (x y : number) : number :=
  match x, y with
  | NaN, _ | _, NaN => NaN
  | Fin a, Fin b =>
      match Qcsgn b with
      | Eq => NaN
      | _ => Fin (a - b * Qc_of_Z (Qctrunc (a / b)))%Qc
      end
  | Fin a, _ => Fin a
  | _, _ => NaN
  end.

(** [Math.floor], [Math.round] (halves round towards +Infinity),
    [Math.max] and [Math.min] (NaN if either argument is). *)
Definition Math_floor (x : number) : number :=
  match x with
  | Fin q => Fin (Qc_of_Z (Qfloor q))
  | _ => x
  end.

Definition Math_round (x : number) : number :=
  match x with
  | Fin q => Fin (Qc_of_Z (Qfloor (q + Q2Qc (1 # 2))%Qc))
  | _ => x
  end.

(** [x < y], false as soon as one side is NaN. *)
Definition ltb (x y : number) : bool :=
  match x, y with
  | NaN, _ | _, NaN => false
  | Fin a, Fin b => match (a ?= b)%Qc with Lt => true | _ => false end
  | PInf, _ | _, NInf => false
  | NInf, _ | _, PInf => true
  end.

(** [x <= y], false as soon as one side is NaN. *)
Definition leb (x y : number) : bool :=
  match x, y with
  | NaN, _ | _, NaN => false
  | _, _ => negb (ltb y x)
  end.

Definition Math_max (x y : number) : number :=
  match x, y with
  | NaN, _ | _, NaN => NaN
  | _, _ => if ltb x y then y else x
  end.

Definition Math_min (x y : number) : number :=
  match x, y with
  | NaN, _ | _, NaN => NaN
  | _, _ => if ltb y x then y else x
  end.

(** [x === y] on numbers: NaN is equal to nothing. *)
Definition strict_eq (x y : number) : bool :=
  match x, y with
  | Fin a, Fin b => match (a ?= b)%Qc with Eq => true | _ => false end
  | PInf, PInf | NInf, NInf => true
  | _, _ => false
  end.

Definition isNaN (x : number) : bool :=
  match x with NaN => true | _ => false end.

(** [Number.isFinite]: neither NaN nor an infinity. *)
Definition isFinite (x : number) : bool :=
  match x with Fin _ => true | _ => false end.

(** Truthiness of a number: [0] and [NaN] are falsy. *)
Definition truthy_number (x : number) : bool :=
  match x with
  | Fin q => match Qcsgn q with Eq => false | _ => true end
  | NaN => false
  | _ => true
  end.

(** Decimal digits of the fractional part [f] (with [0 <= f < 1]), at
    most [fuel] of them, stopping when the expansion ends. *)
Fixpoint frac_digits (fuel : nat) (f : Qc) : string :=
  match fuel with
  | O => EmptyString
  | S fuel' =>
      match Qcsgn f with
      | Eq => EmptyString
      | _ =>
          let f10 := (f * Qc_of_Z 10)%Qc in
          let d := Qfloor f10 in
          pretty d +:+ frac_digits fuel' (f10 - Qc_of_Z d)%Qc
      end
  end.

(** [Number.prototype.toString].  Integers print as their decimal
    digits, which is what JavaScript prints below 10^21; a finite
    non-integer prints the digits of its exact expansion, 17 after the
    point at most (JavaScript prints the shortest digits that identify
    the double, the same string on values such as 0.5 or 12.25). *)
Definition toString (x : number) : string :=
  match x with
  | NaN => "NaN"
  | PInf => "Infinity"
  | NInf => "-Infinity"
  | Fin q =>
      let t := Qctrunc q in
      let f := (q - Qc_of_Z t)%Qc in
      match Qcsgn f with
      | Eq => pretty t
      | Gt => pretty t +:+ "." +:+ frac_digits 17 f
      | Lt => "-" +:+ pretty (- t) +:+ "." +:+ frac_digits 17 (- f)%Qc
      end
  end.

(** [String.prototype.padStart]: [pad] is repeated, and cut, on the
    left of [s] until the result has [target] characters. *)
Fixpoint fill (n : nat) (pad cur : string) : string :=
  match n with
  | O => EmptyString
  | S n' =>
      match cur with
      | EmptyString =>
          match pad with
          | EmptyString => EmptyString
          | String c cur' => String c (fill n' pad cur')
          end
      | String c cur' => String c (fill n' pad cur')
      end
  end.

Definition padStart (target : nat) (pad s : string) : string :=
  fill (target - String.length s) pad pad +:+ s.

(** The primitive values that reach the code: the fields of a selected
    element's [data] are typed [any]. *)
Inductive value : Type :=
  | VUndefined
  | VNull
  | VBoolean (b : bool)
  | VNumber (n : number)
  | VString (s : string).

Definition truthy (v : value) : bool :=
  match v with
  | VUndefined | VNull => false
  | VBoolean b => b
  | VNumber n => truthy_number n
  | VString s => match s with EmptyString => false | _ => true end
  end.

(** [a || b] *)
Definition or_else (a b : value) : value := if truthy a then a else b.

(** A plain object with primitive fields; reading a field that is not
    there gives [undefined]. *)
Definition get (o : gmap string value) (k : string) : value :=
  default VUndefined (o !! k).

(** [o?.k] on an object that may be [undefined]. *)
Definition get_opt (o : option (gmap string value)) (k : string) : value :=
  match o with
  | Some o' => get o' k
  | None => VUndefined
  end.

(** The text React shows for a value placed among the children of an
    element: a string or a number as its text, [undefined], [null] and
    booleans as nothing. *)
Definition value_text (v : value) : string :=
  match v with
  | VNumber n => toString n
  | VString s => s
  | VUndefined | VNull | VBoolean _ => EmptyString
  end.

(** [ToNumber] on a primitive value.  A string is read as a decimal
    literal: an optional sign, digits, and an optional point followed by
    digits (surrounding blanks, exponents and the hexadecimal and
    [Infinity] forms are not read, and give NaN here). *)
Definition digit_of (c : ascii) : option Z :=
  let n := Z.of_nat (nat_of_ascii c) in
  if (48 <=? n) && (n <=? 57) then Some (n - 48) else None.

(** The digits of [s] up to its end or to the first point: their value
    after [acc], how many they are after [n], and what follows the
    point. *)
Fixpoint digits_value (acc : Z) (n : nat) (s : string)
  : option (Z * nat * option string) :=
  match s with
  | EmptyString => Some (acc, n, None)
  | String "." s' => Some (acc, n, Some s')
  | String c s' =>
      match digit_of c with
      | Some d => digits_value (10 * acc + d) (S n) s'
      | None => None
      end
  end.

Definition unsigned_to_number (s : string) : option Qc :=
  match digits_value 0 0 s with
  | Some (i, n, None) =>
      if Nat.eqb n 0 then None else Some (Qc_of_Z i)
  | Some (i, n, Some s') =>
      match digits_value 0 0 s' with
      | Some (f, k, None) =>
          if Nat.eqb (n + k) 0 then None
          else Some (Qc_of_Z i + Qc_of_Z f / Qc_of_Z (10 ^ Z.of_nat k))%Qc
      | _ => None
      end
  | None => None
  end.

Definition string_to_number (s : string) : number :=
  match s with
  | EmptyString => of_Z 0
  | String "-" s' =>
      match unsigned_to_number s' with
      | Some q => Fin (- q)%Qc
      | None => NaN
      end
  | String "+" s' =>
      match unsigned_to_number s' with
      | Some q => Fin q
      | None => NaN
      end
  | _ =>
      match unsigned_to_number s with
      | Some q => Fin q
      | None => NaN
      end
  end.

Definition to_number (v : value) : number :=
  match v with
  | VUndefined => NaN
  | VNull => of_Z 0
  | VBoolean b => if b then of_Z 1 else of_Z 0
  | VNumber n => n
  | VString s => string_to_number s
  end.

(** An optional string ([x?: string]) seen as a value. *)
Definition of_opt_string (x : option string) : value :=
  match x with Some s => VString s | None => VUndefined end.

(** [x || d] on an optional number and on an optional string. *)
Definition number_or (x : option number) (d : number) : number :=
  match x with
  | Some n => if truthy_number n then n else d
  | None => d
  end.

Definition string_or (x : option string) (d : string) : string :=
  match x with
  | Some s => if truthy (VString s) then s else d
  | None => d
  end.

Definition of_Q (q : Q) : number := Fin (Q2Qc q).

Declare Scope js_scope.
Delimit Scope js_scope with js.
Bind Scope js_scope with number.
Infix "+" := add : js_scope.
Infix "-" := sub : js_scope.
Infix "*" := mul : js_scope.
Infix "/" := div : js_scope.
Infix "mod" := rem : js_scope.
Infix "<?" := ltb : js_scope.
Infix "<=?" := leb : js_scope.

End JS.

Import (notations) JS.
Abbreviation number := JS.number.

(** ** The element selected on the timeline

    The interface [SelectedElement] is declared, with the same fields,
    in Timeline.tsx, BlueprintTerminal.tsx and PropertiesPanel.tsx. *)

Inductive track : Type := narrative | visual | audio | clarity.

Definition track_name (t : track) : string :=
  match t with
  | narrative => "narrative"
  | visual => "visual"
  | audio => "audio"
  | clarity => "clarity"
  end.

#[global] Instance track_eq_dec : EqDecision track.
Proof. solve_decision. Defined.

Record SelectedElement : Type := {
  sel_type : option track;          (* type: ... | null *)
  sel_id : option string;           (* id?: string *)
  timeStart : option number;        (* timeStart?: number *)
  timeEnd : option number;          (* timeEnd?: number *)
  data : option (gmap string JS.value)  (* data?: any *)
}.

(** ** src/components/Timeline.tsx *)

Module Timeline.

Record TimelineElement : Type := {
  id : string;
  type : track;
  start : number;
  end_ : number;
  text : string;
  colorClass : option string
}.

(** The element itself is handed over as the selection's [data]. *)
Definition as_object (el : TimelineElement) : gmap string JS.value :=
  let o : gmap string JS.value :=
    <["id" := JS.VString (id el)]>
      (<["type" := JS.VString (track_name (type el))]>
        (<["start" := JS.VNumber (start el)]>
          (<["end" := JS.VNumber (end_ el)]>
            (<["text" := JS.VString (text el)]> ∅)))) in
  match colorClass el with
  | Some c => <["colorClass" := JS.VString c]> o
  | None => o
  end.

Definition mk (i : string) (t : track) (s e : Z) (txt cls : string)
  : TimelineElement :=
  {| id := i; type := t; start := JS.of_Z s; end_ := JS.of_Z e;
     text := txt; colorClass := Some cls |}.

Definition mockTimelineData : list TimelineElement :=
  [ mk "n1" narrative 0 10 "Intro to SaaS Platform" "bg-narrative";
    mk "n2" narrative 15 30 "Key Features Overview" "bg-narrative";
    mk "n3" narrative 40 55 "User Testimonials" "bg-narrative";
    mk "v1" visual 5 12 "Dashboard UI Showcase" "bg-visuals";
    mk "v2" visual 25 35 "Feature Animation Demo" "bg-visuals";
    mk "v3" visual 45 60 "Product Mockups" "bg-visuals";
    mk "a1" audio 0 15 "Background Music" "bg-audio";
    mk "a2" audio 20 40 "Voiceover Explanation" "bg-audio";
    mk "a3" audio 50 65 "Sound Effects Highlight" "bg-audio";
    mk "c1" clarity 8 11 "High Clarity Segment" "bg-clarity text-black";
    mk "c2" clarity 32 34 "Confusing Terminology" "bg-clarity text-black";
    mk "c3" clarity 52 54 "Audience Engagement Peak" "bg-clarity text-black" ].

Definition PIXELS_PER_SECOND_BASE : number := JS.of_Z 50.

(** The data-carrying props; the four callback props are the
    constructors of [emit] below. *)
Record TimelineProps : Type := {
  duration : number;
  currentTime : number;
  selectedElement : SelectedElement;
  zoomLevel : number;
  scrollX : number
}.

(** A call of one of the callback props. *)
Inductive emit : Type :=
  | onScrub (time : number)
  | onElementSelect (element : SelectedElement)
  | onZoomChange (zoom : number)
  | onScrollChange (scroll : number).

(** The scrollable container behind [timelineRef], as far as the
    component reads and writes it.  [scrollLeft] holds what the code
    assigns; [rect_left] is [getBoundingClientRect().left]. *)
Record HTMLDivElement : Type := {
  scrollLeft : number;
  rect_left : number
}.

(** The component's own state: the three [useState] cells and the ref. *)
Record State : Type := {
  isDragging : bool;
  dragStartX : number;
  startScrollX : number;
  timelineRef : option HTMLDivElement
}.

Definition initial (ref : option HTMLDivElement) : State :=
  {| isDragging := false; dragStartX := JS.of_Z 0;
     startScrollX := JS.of_Z 0; timelineRef := ref |}.

Section Component.

Variable props : TimelineProps.

Definition totalWidth : number :=
  (duration props * PIXELS_PER_SECOND_BASE * zoomLevel props)%js.

(** The expression [(t / duration) * totalWidth], which places the
    playback indicator and the left edge and the width of an element. *)
Definition timeToPixels (t : number) : number :=
  (t / duration props * totalWidth)%js.

(** The expression [(x / totalWidth) * duration] of the click handler. *)
Definition pixelsToTime (x : number) : number :=
  (x / totalWidth * duration props)%js.

Definition handleScroll (st : State) : list emit :=
  match timelineRef st with
  | Some el => [onScrollChange (scrollLeft el)]
  | None => []
  end.

(** The effect that copies the [scrollX] prop into the container when
    they differ. *)
Definition syncScroll (st : State) : State :=
  match timelineRef st with
  | Some el =>
      if negb (JS.strict_eq (scrollLeft el) (scrollX props))
      then
        {| isDragging := isDragging st; dragStartX := dragStartX st;
           startScrollX := startScrollX st;
           timelineRef := Some {| scrollLeft := scrollX props;
                                  rect_left := rect_left el |} |}
      else st
  | None => st
  end.

Definition handleMouseDown (clientX : number) (st : State) : State :=
  {| isDragging := true;
     dragStartX := clientX;
     startScrollX :=
       JS.number_or (scrollLeft <$> timelineRef st) (JS.of_Z 0);
     timelineRef := timelineRef st |}.

Definition handleMouseMove (clientX : number) (st : State) : State :=
  if negb (isDragging st) then st
  else
    let deltaX := (clientX - dragStartX st)%js in
    match timelineRef st with
    | Some el =>
        {| isDragging := isDragging st; dragStartX := dragStartX st;
           startScrollX := startScrollX st;
           timelineRef := Some {| scrollLeft := (startScrollX st - deltaX)%js;
                                  rect_left := rect_left el |} |}
    | None => st
    end.

Definition handleMouseUp (st : State) : State :=
  {| isDragging := false; dragStartX := dragStartX st;
     startScrollX := startScrollX st; timelineRef := timelineRef st |}.

Definition indicatorPosition : number := timeToPixels (currentTime props).

Definition handleTimelineClick (clientX : number) (st : State) : list emit :=
  match timelineRef st with
  | None => []
  | Some el =>
      if isDragging st then []
      else
        let clickX := (clientX - rect_left el + scrollLeft el)%js in
        let newTime := pixelsToTime clickX in
        [onScrub newTime]
  end.

(** The slider hands over an array, of which the first entry is used. *)
Definition handleZoomChange (value0 : number) (rest : list number)
  : list emit :=
  [onZoomChange value0].

Record Style : Type := {
  left : string;
  width : string;
  backgroundColor : option string;
  border : string;
  zIndex : Z
}.

Definition isSelected (element : TimelineElement) : bool :=
  bool_decide (sel_id (selectedElement props) = Some (id element)) &&
  bool_decide (sel_type (selectedElement props) = Some (type element)).

Definition getElementStyle (element : TimelineElement) : Style :=
  let left := timeToPixels (start element) in
  let width := timeToPixels (end_ element - start element)%js in
  {| left := JS.toString left +:+ "px";
     width := JS.toString width +:+ "px";
     backgroundColor := colorClass element;
     border := if isSelected element then "2px solid white" else "none";
     zIndex := if isSelected element then 10 else 1 |}.

(** A click on a rendered element: the propagation is stopped, so that
    the click handler of the track does not run. *)
Definition elementClick (element : TimelineElement) : list emit :=
  [onElementSelect
     {| sel_type := Some (type element);
        sel_id := Some (id element);
        timeStart := Some (start element);
        timeEnd := Some (end_ element);
        data := Some (as_object element) |}].

(** The four zoom controls of the controls bar.  The number input
    hands over [parseFloat(e.target.value)]. *)
Inductive zoom_control : Type :=
  | ZoomOutButton
  | ZoomSlider (value0 : number) (rest : list number)
  | ZoomInButton
  | ZoomInput (parsed : number).

Definition zoomControl (c : zoom_control) : list emit :=
  match c with
  | ZoomOutButton =>
      [onZoomChange (JS.Math_max (JS.of_Q 0.5) (zoomLevel props - JS.of_Q 0.5)%js)]
  | ZoomSlider value0 rest => handleZoomChange value0 rest
  | ZoomInButton =>
      [onZoomChange (JS.Math_min (JS.of_Z 5) (zoomLevel props + JS.of_Q 0.5)%js)]
  | ZoomInput parsed => [onZoomChange parsed]
  end.

End Component.

(** The pointer moves of a drag, in order. *)
Definition drag (moves : list number) (st : State) : State :=
  fold_left (λ s clientX, handleMouseMove clientX s) moves st.

(** The tracks, in the order in which they are rendered. *)
Definition trackOrder : list track := [narrative; visual; audio; clarity].

(** The elements grouped by track name, each group in source order. *)
Definition groupedData : gmap string (list TimelineElement) :=
  fold_left
    (λ acc element,
       let k := track_name (type element) in
       <[k := default [] (acc !! k) ++ [element]]> acc)
    mockTimelineData ∅.

(** The same grouping over any list of elements, and the lane that is
    rendered for a track: [groupedData[trackType]?.map(...)] renders
    nothing for a track without a group. *)
Definition groupByType (data : list TimelineElement)
  : gmap string (list TimelineElement) :=
  fold_left
    (λ acc element,
       let k := track_name (type element) in
       <[k := default [] (acc !! k) ++ [element]]> acc)
    data ∅.

Definition lane (data : list TimelineElement) (t : track)
  : list TimelineElement :=
  default [] (groupByType data !! track_name t).

Definition lanes (data : list TimelineElement)
  : list (track * list TimelineElement) :=
  map (λ t, (t, lane data t)) trackOrder.

End Timeline.


(** ** src/components/BlueprintTerminal.tsx *)

Module BlueprintTerminal.

Record VideoData : Type := {
  id : string;
  title : string;
  duration : number;
  url : string;
  thumbnail : string
}.

Definition mockVideo : VideoData :=
  {| id := "1";
     title := "Product Demo - SaaS Platform";
     duration := JS.of_Z 154;
     url := "/api/placeholder/854/480";
     thumbnail := "/api/placeholder/854/480" |}.

(** The media element behind [videoRef]: the position the code assigns
    to it, and whether it was last told to play or to pause. *)
Record HTMLVideoElement : Type := {
  video_currentTime : number;
  paused : bool
}.

Record State : Type := {
  isPlaying : bool;
  currentTime : number;
  selectedElement : SelectedElement;
  zoomLevel : number;
  timelineScrollX : number;
  videoRef : option HTMLVideoElement;
  websocketMessages : list string
}.

Definition initial (ref : option HTMLVideoElement) : State :=
  {| isPlaying := false;
     currentTime := JS.of_Z 0;
     selectedElement :=
       {| sel_type := None; sel_id := None; timeStart := None;
          timeEnd := None; data := None |};
     zoomLevel := JS.of_Z 1;
     timelineScrollX := JS.of_Z 0;
     videoRef := ref;
     websocketMessages := [] |}.

Definition setIsPlaying (b : bool) (st : State) : State :=
  {| isPlaying := b; currentTime := currentTime st;
     selectedElement := selectedElement st; zoomLevel := zoomLevel st;
     timelineScrollX := timelineScrollX st; videoRef := videoRef st;
     websocketMessages := websocketMessages st |}.

Definition setCurrentTime (t : number) (st : State) : State :=
  {| isPlaying := isPlaying st; currentTime := t;
     selectedElement := selectedElement st; zoomLevel := zoomLevel st;
     timelineScrollX := timelineScrollX st; videoRef := videoRef st;
     websocketMessages := websocketMessages st |}.

Definition setSelectedElement (e : SelectedElement) (st : State) : State :=
  {| isPlaying := isPlaying st; currentTime := currentTime st;
     selectedElement := e; zoomLevel := zoomLevel st;
     timelineScrollX := timelineScrollX st; videoRef := videoRef st;
     websocketMessages := websocketMessages st |}.

Definition setZoomLevel (z : number) (st : State) : State :=
  {| isPlaying := isPlaying st; currentTime := currentTime st;
     selectedElement := selectedElement st; zoomLevel := z;
     timelineScrollX := timelineScrollX st; videoRef := videoRef st;
     websocketMessages := websocketMessages st |}.

Definition setTimelineScrollX (x : number) (st : State) : State :=
  {| isPlaying := isPlaying st; currentTime := currentTime st;
     selectedElement := selectedElement st; zoomLevel := zoomLevel st;
     timelineScrollX := x; videoRef := videoRef st;
     websocketMessages := websocketMessages st |}.

Definition setVideo (v : HTMLVideoElement) (st : State) : State :=
  {| isPlaying := isPlaying st; currentTime := currentTime st;
     selectedElement := selectedElement st; zoomLevel := zoomLevel st;
     timelineScrollX := timelineScrollX st; videoRef := Some v;
     websocketMessages := websocketMessages st |}.

(** [setWebsocketMessages((prev) => [...prev, line])] *)
Definition pushMessage (line : string) (st : State) : State :=
  {| isPlaying := isPlaying st; currentTime := currentTime st;
     selectedElement := selectedElement st; zoomLevel := zoomLevel st;
     timelineScrollX := timelineScrollX st; videoRef := videoRef st;
     websocketMessages := websocketMessages st ++ [line] |}.

(** The handlers of the client side of the realtime channel. *)
Inductive ws_event : Type :=
  | ws_onopen
  | ws_onmessage (data : string)
  | ws_onclose
  | ws_onerror.

Definition ws_handle (e : ws_event) (st : State) : State :=
  match e with
  | ws_onopen => pushMessage "[WebSocket] Connected to server." st
  | ws_onmessage d => pushMessage ("[WebSocket] " +:+ d) st
  | ws_onclose => pushMessage "[WebSocket] Disconnected from server." st
  | ws_onerror => pushMessage "[WebSocket] Error occurred." st
  end.

Definition formatTime (seconds : number) : string :=
  let mins := JS.Math_floor (seconds / JS.of_Z 60)%js in
  let secs := JS.Math_floor (seconds mod JS.of_Z 60)%js in
  JS.toString mins +:+ ":" +:+ JS.padStart 2 "0" (JS.toString secs).

Definition togglePlayback (st : State) : State :=
  match videoRef st with
  | Some v =>
      let v' :=
        if isPlaying st
        then {| video_currentTime := video_currentTime v; paused := true |}
        else {| video_currentTime := video_currentTime v; paused := false |} in
      setIsPlaying (negb (isPlaying st)) (setVideo v' st)
  | None => st
  end.

(** An assignment to [currentTime] of the media element.  The
    attribute is a double of the DOM that has to be finite: for NaN and
    for the infinities the assignment raises a TypeError, and the
    position of the element stays as it was. *)
Definition set_currentTime (time : number) (v : HTMLVideoElement)
  : option HTMLVideoElement :=
  if JS.isFinite time
  then Some {| video_currentTime := time; paused := paused v |}
  else None.

(** How a handler ends: it returns, or an exception leaves it; either
    way the terminal is in the state that the handler has set so far. *)
Inductive exception : Type := TypeError.

Inductive completion : Type :=
  | Returns (st : State)
  | Throws (e : exception) (st : State).

Definition state_after (c : completion) : State :=
  match c with
  | Returns st => st
  | Throws _ st => st
  end.

(** [seekTo] with its way of ending: when the assignment to the media
    element throws, [setCurrentTime] is not reached. *)
Definition try_seekTo (time : number) (st : State) : completion :=
  match videoRef st with
  | Some v =>
      match set_currentTime time v with
      | Some v' => Returns (setCurrentTime time (setVideo v' st))
      | None => Throws TypeError st
      end
  | None => Returns st
  end.

(** The state in which [seekTo] leaves the terminal. *)
Definition seekTo (time : number) (st : State) : State :=
  state_after (try_seekTo time st).

Section Player.

(** The component reads the module constant [mockVideo]; the handlers
    that use it are written over any video data and used at
    [mockVideo]. *)
Variable video : VideoData.

Definition skipForward (st : State) : State :=
  let newTime := JS.Math_min (currentTime st + JS.of_Z 10)%js (duration video) in
  seekTo newTime st.

Definition skipBackward (st : State) : State :=
  let newTime := JS.Math_max (currentTime st - JS.of_Z 10)%js (JS.of_Z 0) in
  seekTo newTime st.

Definition handleTimelineScrub (time : number) (st : State) : State :=
  seekTo time st.

Definition handleElementSelect (element : SelectedElement) (st : State)
  : State :=
  setSelectedElement element st.

(** The listener of the media element's [timeupdate] signal. *)
Definition handleTimeUpdate (st : State) : State :=
  match videoRef st with
  | Some v => setCurrentTime (video_currentTime v) st
  | None => st
  end.

(** The props handed to the timeline. *)
Definition timelineProps (st : State) : Timeline.TimelineProps :=
  {| Timeline.duration := duration video;
     Timeline.currentTime := currentTime st;
     Timeline.selectedElement := selectedElement st;
     Timeline.zoomLevel := zoomLevel st;
     Timeline.scrollX := timelineScrollX st |}.

(** The callbacks handed to the timeline. *)
Definition callback (e : Timeline.emit) (st : State) : State :=
  match e with
  | Timeline.onScrub t => handleTimelineScrub t st
  | Timeline.onElementSelect el => handleElementSelect el st
  | Timeline.onZoomChange z => setZoomLevel z st
  | Timeline.onScrollChange x => setTimelineScrollX x st
  end.

Definition callbacks (es : list Timeline.emit) (st : State) : State :=
  fold_left (λ s e, callback e s) es st.

(** A zoom control of the timeline, wired to [setZoomLevel]. *)
Definition zoom (c : Timeline.zoom_control) (st : State) : State :=
  callbacks (Timeline.zoomControl (timelineProps st) c) st.

(** A click on the track of the timeline, wired to the scrub handler. *)
Definition timelineClick (clientX : number) (tl : Timeline.State)
    (st : State) : State :=
  callbacks (Timeline.handleTimelineClick (timelineProps st) clientX tl) st.

(** The three playback buttons. *)
Inductive button : Type := SkipBack | PlayPause | SkipForward.

Definition click (b : button) (st : State) : State :=
  match b with
  | SkipBack => skipBackward st
  | PlayPause => togglePlayback st
  | SkipForward => skipForward st
  end.

(** What can happen to the mounted terminal: a press on a playback
    button, a callback of the timeline, a zoom control, an event of the
    realtime channel, and the [timeupdate] signal of the media element. *)
Inductive action : Type :=
  | Press (b : button)
  | FromTimeline (e : Timeline.emit)
  | Zoom (c : Timeline.zoom_control)
  | Socket (e : ws_event)
  | TimeUpdate.

Definition act (st : State) (a : action) : State :=
  match a with
  | Press b => click b st
  | FromTimeline e => callback e st
  | Zoom c => zoom c st
  | Socket e => ws_handle e st
  | TimeUpdate => handleTimeUpdate st
  end.

Definition acts (l : list action) (st : State) : State :=
  fold_left act l st.

End Player.

(** The line that an event of the realtime channel adds to the log. *)
Definition ws_line (e : ws_event) : string :=
  match e with
  | ws_onopen => "[WebSocket] Connected to server."
  | ws_onmessage d => "[WebSocket] " +:+ d
  | ws_onclose => "[WebSocket] Disconnected from server."
  | ws_onerror => "[WebSocket] Error occurred."
  end.

End BlueprintTerminal.

(** ** Double precision *)

(** The finite values of [JS.number] are exact rationals.  The numbers
    of the program are IEEE 754 doubles (binary64): an arithmetic
    operation gives the exact result rounded to the nearest double,
    ties to the even significand.  This module has the rounding, the
    rounded operations and, over them, the expressions of the timeline
    and the handlers of the terminal that compute with numbers. *)
Module Binary64.

Definition pow2 (e : Z) : Q := (2 ^ e)%Q.

(** The integer part of the binary logarithm of a rational above
    zero. *)
Definition ilog2 (a : Q) : Z :=
  let l := Z.log2 (Qnum a) - Z.log2 (Zpos (Qden a)) in
  if Qle_bool (pow2 l) a then l else l - 1.

(** The nearest whole number, the even one of the two at a tie. *)
Definition nearest_even (a : Q) : Z :=
  let f := Qfloor a in
  match (a - inject_Z f ?= 1 # 2)%Q with
  | Lt => f
  | Gt => f + 1
  | Eq => if Z.even f then f else f + 1
  end.

(** Rounding of a rational above zero: a significand of 53 bits at the
    exponent of the number, and of fewer bits at the least exponent,
    -1074, for the subnormal numbers; from 2^1024 on the result is
    +Infinity. *)
Definition round_pos (a : Q) : number :=
  let e := Z.max (ilog2 a - 52) (-1074) in
  let r := (inject_Z (nearest_even (a / pow2 e)) * pow2 e)%Q in
  if Qle_bool (pow2 1024) r then JS.PInf else JS.Fin (Q2Qc r).

Definition round (x : number) : number :=
  match x with
  | JS.Fin q =>
      match JS.Qcsgn q with
      | Eq => x
      | Gt => round_pos q
      | Lt => JS.neg (round_pos (- q))
      end
  | _ => x
  end.

(** The unit roundoff of the format, half of [Number.EPSILON]. *)
Definition unit_roundoff : Q := pow2 (-53).

Definition add (x y : number) : number := round (x + y)%js.
Definition sub (x y : number) : number := round (x - y)%js.
Definition mul (x y : number) : number := round (x * y)%js.
Definition div (x y : number) : number := round (x / y)%js.

Declare Scope double_scope.
Delimit Scope double_scope with double.
Arguments add (x y)%_double_scope.
Arguments sub (x y)%_double_scope.
Arguments mul (x y)%_double_scope.
Arguments div (x y)%_double_scope.
Infix "+" := add : double_scope.
Infix "-" := sub : double_scope.
Infix "*" := mul : double_scope.
Infix "/" := div : double_scope.

Section Component.

Variable props : Timeline.TimelineProps.

Definition totalWidth : number :=
  (Timeline.duration props * Timeline.PIXELS_PER_SECOND_BASE
   * Timeline.zoomLevel props)%double.

Definition timeToPixels (t : number) : number :=
  (t / Timeline.duration props * totalWidth)%double.

Definition pixelsToTime (x : number) : number :=
  (x / totalWidth * Timeline.duration props)%double.

Definition indicatorPosition : number :=
  timeToPixels (Timeline.currentTime props).

Definition handleTimelineClick (clientX : number) (st : Timeline.State)
  : list Timeline.emit :=
  match Timeline.timelineRef st with
  | None => []
  | Some el =>
      if Timeline.isDragging st then []
      else
        let clickX :=
          (clientX - Timeline.rect_left el + Timeline.scrollLeft el)%double in
        let newTime := pixelsToTime clickX in
        [Timeline.onScrub newTime]
  end.

Definition zoomControl (c : Timeline.zoom_control) : list Timeline.emit :=
  match c with
  | Timeline.ZoomOutButton =>
      [Timeline.onZoomChange
         (JS.Math_max (JS.of_Q 0.5)
            (Timeline.zoomLevel props - JS.of_Q 0.5)%double)]
  | Timeline.ZoomSlider value0 rest => Timeline.handleZoomChange value0 rest
  | Timeline.ZoomInButton =>
      [Timeline.onZoomChange
         (JS.Math_min (JS.of_Z 5)
            (Timeline.zoomLevel props + JS.of_Q 0.5)%double)]
  | Timeline.ZoomInput parsed => [Timeline.onZoomChange parsed]
  end.

End Component.

(** The handlers of the terminal that compute. *)
Section Player.

Variable video : BlueprintTerminal.VideoData.

Definition skipForward (st : BlueprintTerminal.State)
  : BlueprintTerminal.State :=
  let newTime :=
    JS.Math_min (BlueprintTerminal.currentTime st + JS.of_Z 10)%double
      (BlueprintTerminal.duration video) in
  BlueprintTerminal.seekTo newTime st.

Definition skipBackward (st : BlueprintTerminal.State)
  : BlueprintTerminal.State :=
  let newTime :=
    JS.Math_max (BlueprintTerminal.currentTime st - JS.of_Z 10)%double
      (JS.of_Z 0) in
  BlueprintTerminal.seekTo newTime st.

Definition zoom (c : Timeline.zoom_control) (st : BlueprintTerminal.State)
  : BlueprintTerminal.State :=
  BlueprintTerminal.callbacks
    (zoomControl (BlueprintTerminal.timelineProps video st) c) st.

Definition timelineClick (clientX : number) (tl : Timeline.State)
    (st : BlueprintTerminal.State) : BlueprintTerminal.State :=
  BlueprintTerminal.callbacks
    (handleTimelineClick (BlueprintTerminal.timelineProps video st)
       clientX tl) st.

End Player.

(** A number of the program, one that rounding leaves as it is. *)
Definition representable (q : Qc) : Prop := round (JS.Fin q) = JS.Fin q.

(** [r] is [x] up to the factors [lo] and [hi]. *)
Definition within (lo hi x r : Q) : Prop :=
  (x * lo <= r)%Q ∧ (r <= x * hi)%Q.

End Binary64.

Import (notations) Binary64.

(** ** src/components/PropertiesPanel.tsx *)

Module PropertiesPanel.

#[local] Set Warnings "-register-all".

(** What a component renders: the tree of elements with the text and
    the values placed in it.  Class names and other styling attributes
    are left out. *)
Inductive node : Type :=
  | text (s : string)
  | expr (v : JS.value)
  | element (tag : string) (children : list node).

(** The text a tree shows.  A value placed in the tree shows as React
    shows it: a string or a number as its text, [undefined], [null] and
    booleans as nothing. *)
Fixpoint textContent (n : node) : string :=
  match n with
  | text s => s
  | expr v => JS.value_text v
  | element _ children =>
      (fix all (l : list node) : string :=
         match l with
         | [] => EmptyString
         | c :: l' => textContent c +:+ all l'
         end) children
  end.

(** The texts of the children of an element, one for each child. *)
Definition lines (n : node) : list string :=
  match n with
  | element _ children => map textContent children
  | _ => []
  end.

Record PropertiesPanelProps : Type := {
  selectedElement : option SelectedElement;
  currentTime : number;
  duration : number
}.

Definition formatTime (seconds : number) : string :=
  let mins := JS.Math_floor (seconds / JS.of_Z 60)%js in
  let secs := JS.Math_floor (seconds mod JS.of_Z 60)%js in
  JS.toString mins +:+ ":" +:+ JS.padStart 2 "0" (JS.toString secs).

Definition strong (label : string) : node := element "strong" [text label].

Definition placeholder : node :=
  element "div"
    [text "Select an element on the timeline to view its properties."].

Definition displayTitle (t : track) : string :=
  match t with
  | narrative => "Narrative Beat"
  | visual => "Visual Event"
  | audio => "Audio Event"
  | clarity => "Clarity Insight"
  end.

(** The line [Score:] of a narrative beat and of a clarity insight. *)
Definition scoreLine (d : option (gmap string JS.value)) : node :=
  element "p"
    [strong "Score:"; text " ";
     expr (JS.or_else (JS.get_opt d "score") (JS.VString "N/A"))].

(** The line [Volume:] of an audio event. *)
Definition volumeLine (d : option (gmap string JS.value)) : node :=
  element "p"
    [strong "Volume:"; text " ";
     expr
       (match JS.get_opt d "volume" with
        | JS.VUndefined => JS.VString "N/A"
        | volume =>
            JS.VString
              (JS.toString (JS.to_number volume * JS.of_Z 100)%js +:+ "%")
        end)].

(** The [switch] on the type of the selection: the two lines of each
    case. *)
Definition elementSpecificData (sel : SelectedElement) (t : track)
  : option (list node) :=
  let d := data sel in
  match t with
  | narrative =>
      Some
        [ element "p" [strong "Text:"; text " "; expr (JS.get_opt d "text")];
          scoreLine d ]
  | visual =>
      Some
        [ element "p" [strong "Scene:"; text " "; expr (JS.get_opt d "scene")];
          element "p"
            [strong "Description:"; text " ";
             expr (JS.or_else (JS.get_opt d "description") (JS.VString "N/A"))] ]
  | audio =>
      Some
        [ element "p" [strong "Track:"; text " "; expr (JS.get_opt d "title")];
          volumeLine d ]
  | clarity =>
      Some
        [ element "p" [strong "Insight:"; text " "; expr (JS.get_opt d "text")];
          scoreLine d ]
  end.

(** The section "General" of the panel. *)
Definition general (sel : SelectedElement) (t : track) : node :=
  element "div"
    [ element "h4" [text "General"];
      element "p"
        [strong "ID:"; text " "; text (JS.string_or (sel_id sel) "N/A")];
      element "p"
        [strong "Type:"; text " "; element "Badge" [text (track_name t)]];
      element "p"
        [strong "Time:"; text " ";
         text (formatTime (JS.number_or (timeStart sel) (JS.of_Z 0)));
         text " - ";
         text (formatTime (JS.number_or (timeEnd sel) (JS.of_Z 0)))];
      element "p"
        [strong "Duration:"; text " ";
         text (formatTime
                 (JS.number_or (timeEnd sel) (JS.of_Z 0)
                  - JS.number_or (timeStart sel) (JS.of_Z 0))%js)] ].

Definition specific (sel : SelectedElement) (t : track) : node :=
  element "div"
    (element "h4" [text "Specific Data"] ::
     match elementSpecificData sel t with
     | Some lines => lines
     | None => [element "p" [text "No specific data available for this type."]]
     end).

Definition context (props : PropertiesPanelProps) : node :=
  element "div"
    [ element "h4" [text "Context"];
      element "p"
        [strong "Current Video Time:"; text " ";
         text (formatTime (currentTime props)); text " / ";
         text (formatTime (duration props))] ].

Definition PropertiesPanel (props : PropertiesPanelProps) : node :=
  match selectedElement props with
  | None => placeholder
  | Some sel =>
      match sel_type sel with
      | None => placeholder
      | Some t =>
          element "div"
            [ element "Card"
                [ element "CardHeader"
                    [element "CardTitle" [text (displayTitle t)]];
                  element "CardContent"
                    [ general sel t;
                      element "Separator" [];
                      specific sel t;
                      element "Separator" [];
                      context props ] ] ]
      end
  end.

End PropertiesPanel.

(** ** src/components/ErrorBoundary.tsx *)

Module ErrorBoundary.

Import PropertiesPanel.

(** A JavaScript [Error], as far as the fallback reads it. *)
Record Error : Type := {
  message : string;
  stack : option string
}.

Record ErrorBoundaryState : Type := {
  hasError : bool;
  error : option Error
}.

(** The state set by the constructor. *)
Definition initial : ErrorBoundaryState :=
  {| hasError := false; error := None |}.

Definition getDerivedStateFromError (e : Error) : ErrorBoundaryState :=
  {| hasError := true; error := Some e |}.

(** The block of details,
    [NODE_ENV === 'development' && this.state.error && (...)]: the value
    [false] or [null] where one of the two tests fails. *)
Definition details (NODE_ENV : string) (st : ErrorBoundaryState) : node :=
  if bool_decide (NODE_ENV = "development")
  then
    match error st with
    | Some e =>
        element "div"
          [ element "p" [text "Error Details:"];
            element "p" [text "Message: "; text (message e)];
            element "pre"
              [text "Stack: "; expr (JS.of_opt_string (stack e))] ]
    | None => expr JS.VNull
    end
  else expr (JS.VBoolean false).

Definition render (NODE_ENV : string) (children : node)
    (st : ErrorBoundaryState) : node :=
  if hasError st
  then
    element "div"
      [ element "h1" [text "Oops! Something went wrong."];
        element "p"
          [text "We apologize for the inconvenience. Please try again later."];
        details NODE_ENV st ]
  else children.

End ErrorBoundary.

(** ** src/components/Dashboard.tsx *)

Module Dashboard.

Inductive status_t : Type := completed | processing | failed.

#[global] Instance status_eq_dec : EqDecision status_t.
Proof. solve_decision. Defined.

Record Blueprint : Type := {
  id : string;
  title : string;
  thumbnail : string;
  duration : string;
  status : status_t;
  clarityScore : number;
  createdAt : string
}.

(** What [useQuery] hands to the component. *)
Record QueryResult : Type := {
  query_data : option (list Blueprint);
  isLoading : bool;
  error : option string
}.

(** [blueprints || []] *)
Definition validBlueprints (blueprints : option (list Blueprint))
  : list Blueprint :=
  default [] blueprints.

Definition completedBlueprints (blueprints : option (list Blueprint))
  : list Blueprint :=
  filter (λ b, status b = completed) (validBlueprints blueprints).

Definition averageClarityScore (blueprints : option (list Blueprint))
  : number :=
  let completedBlueprints := completedBlueprints blueprints in
  if (0 <? length completedBlueprints)%nat
  then
    JS.Math_round
      (fold_left (λ acc b, (acc + clarityScore b)%js) completedBlueprints
         (JS.of_Z 0)
       / JS.of_nat (length completedBlueprints))%js
  else JS.of_Z 0.

(** The three statistics shown by the stat cards. *)
Record Stats : Type := {
  totalBlueprints : nat;
  avgClarityScore : number;
  processingBlueprints : nat
}.

Definition stats (blueprints : option (list Blueprint)) : Stats :=
  {| totalBlueprints := length (validBlueprints blueprints);
     avgClarityScore := averageClarityScore blueprints;
     processingBlueprints :=
       length (filter (λ b, status b = processing) (validBlueprints blueprints)) |}.

(** What the component shows. *)
Inductive view : Type :=
  | Loading
  | Failed (message : string)
  | Overview (s : Stats) (cards : list Blueprint).

Definition Dashboard (q : QueryResult) : view :=
  if isLoading q then Loading
  else
    match error q with
    | Some message => Failed message
    | None => Overview (stats (query_data q)) (validBlueprints (query_data q))
    end.

End Dashboard.

(** ** UTF-8 *)

(** The decoder of the Encoding Standard, which [toString] of a buffer
    runs: a sequence of bytes that is not the encoding of a code point
    gives the replacement U+FFFD, one for each maximal part of it. *)
Module UTF8.

(** The code point that stands for a sequence that is not UTF-8. *)
Definition REPLACEMENT : Z := 0xFFFD.

(** The decoder between two bytes: the number of continuation bytes it
    still needs, the code point collected so far, and the bounds of
    the next continuation byte. *)
Record state : Type := {
  needed : nat;
  code_point : Z;
  lower : Z;
  upper : Z
}.

Definition idle : state :=
  {| needed := 0; code_point := 0; lower := 0x80; upper := 0xBF |}.

(** A byte read when no sequence is open. *)
Definition lead (b : Z) : list Z * state :=
  if b <=? 0x7F then ([b], idle)
  else if (0xC2 <=? b) && (b <=? 0xDF) then
    ([], {| needed := 1; code_point := b - 0xC0;
            lower := 0x80; upper := 0xBF |})
  else if (0xE0 <=? b) && (b <=? 0xEF) then
    ([], {| needed := 2; code_point := b - 0xE0;
            lower := if b =? 0xE0 then 0xA0 else 0x80;
            upper := if b =? 0xED then 0x9F else 0xBF |})
  else if (0xF0 <=? b) && (b <=? 0xF4) then
    ([], {| needed := 3; code_point := b - 0xF0;
            lower := if b =? 0xF0 then 0x90 else 0x80;
            upper := if b =? 0xF4 then 0x8F else 0xBF |})
  else ([REPLACEMENT], idle).

(** A byte read in any state: a byte that cannot continue the open
    sequence ends it with a replacement and is read again as a lead. *)
Definition step (s : state) (b : Z) : list Z * state :=
  match needed s with
  | O => lead b
  | S n =>
      if (lower s <=? b) && (b <=? upper s) then
        let c := code_point s * 64 + (b - 0x80) in
        match n with
        | O => ([c], idle)
        | S _ => ([], {| needed := n; code_point := c;
                         lower := 0x80; upper := 0xBF |})
        end
      else (REPLACEMENT :: (lead b).1, (lead b).2)
  end.

Fixpoint decode_from (s : state) (bs : list Z) : list Z :=
  match bs with
  | [] => match needed s with O => [] | S _ => [REPLACEMENT] end
  | b :: bs => (step s b).1 ++ decode_from (step s b).2 bs
  end.

Definition decode (bs : list Z) : list Z := decode_from idle bs.

Definition encode_code_point (c : Z) : list Z :=
  if c <? 0x80 then [c]
  else if c <? 0x800 then [0xC0 + c / 64; 0x80 + c mod 64]
  else if c <? 0x10000 then
    [0xE0 + c / 4096; 0x80 + (c / 64) mod 64; 0x80 + c mod 64]
  else
    [0xF0 + c / 262144; 0x80 + (c / 4096) mod 64; 0x80 + (c / 64) mod 64;
     0x80 + c mod 64].

Definition encode (cs : list Z) : list Z :=
  flat_map encode_code_point cs.

(** The code points of text: all but the surrogates. *)
Definition scalar (c : Z) : Prop :=
  0 ≤ c < 0xD800 ∨ 0xE000 ≤ c ≤ 0x10FFFF.

(** Bytes that are the encoding of a text. *)
Definition well_formed (bs : list Z) : Prop :=
  ∃ cs, Forall scalar cs ∧ bs = encode cs.

End UTF8.

(** ** src/pages/api/websocket.ts *)

Module Relay.

Inductive readyState_t : Type := CONNECTING | OPEN | CLOSING | CLOSED.

#[global] Instance readyState_eq_dec : EqDecision readyState_t.
Proof. solve_decision. Defined.

(** A connection of the server: its state and the texts handed to its
    [send], oldest first. *)
Record WebSocket : Type := {
  readyState : readyState_t;
  sent : list string
}.

Definition send (payload : string) (ws : WebSocket) : WebSocket :=
  {| readyState := readyState ws; sent := sent ws ++ [payload] |}.

(** The server object: [clients] is its set of connections, each known
    by its identity. *)
Record WebSocketServer : Type := {
  clients : gmap nat WebSocket
}.

(** The http server, which carries the relay once it is created. *)
Record CustomServer : Type := {
  ws : option WebSocketServer
}.

Definition handler (server : CustomServer) : CustomServer :=
  match ws server with
  | None => {| ws := Some {| clients := ∅ |} |}
  | Some _ => server
  end.

Definition welcome : string := "Welcome to the WebSocket server!".

Section Messages.

(** An inbound message, and its [toString()]. *)
Variable RawData : Type.
Variable toString : RawData → string.

(** The events of the server.  On [connection] and on [close] the
    library itself adds the connection to [clients] and takes it out;
    [closing] is a connection that has started its closing handshake. *)
Inductive event : Type :=
  | connection (c : nat)
  | message (c : nat) (m : RawData)
  | closing (c : nat)
  | close (c : nat).

Definition on_connection (c : nat) (wss : WebSocketServer) : WebSocketServer :=
  {| clients :=
       <[c := send welcome {| readyState := OPEN; sent := [] |}]> (clients wss) |}.

(** [wss.clients.forEach] of the message handler of connection [c]. *)
Definition on_message (c : nat) (m : RawData) (wss : WebSocketServer)
  : WebSocketServer :=
  {| clients :=
       map_imap
         (λ k client,
            Some
              (if bool_decide (k ≠ c) && bool_decide (readyState client = OPEN)
               then send (toString m) client
               else client))
         (clients wss) |}.

Definition on_closing (c : nat) (wss : WebSocketServer) : WebSocketServer :=
  {| clients :=
       alter (λ client, {| readyState := CLOSING; sent := sent client |}) c
         (clients wss) |}.

Definition on_close (c : nat) (wss : WebSocketServer) : WebSocketServer :=
  {| clients := delete c (clients wss) |}.

Definition step (wss : WebSocketServer) (e : event) : WebSocketServer :=
  match e with
  | connection c => on_connection c wss
  | message c m => on_message c m wss
  | closing c => on_closing c wss
  | close c => on_close c wss
  end.

Definition run (es : list event) (wss : WebSocketServer) : WebSocketServer :=
  fold_left step es wss.

(** Messages, each with the connection that sent it, as events. *)
Definition messages (ms : list (nat * RawData)) : list event :=
  map (λ cm, message cm.1 cm.2) ms.

End Messages.

(** *** The messages of the library *)

(** The bytes of a string, and the string of a sequence of bytes. *)
Definition bytes (s : string) : list Z :=
  (λ a, Z.of_N (N_of_ascii a)) <$> list_ascii_of_string s.

Definition of_bytes (bs : list Z) : string :=
  string_of_list_ascii ((λ b, ascii_of_N (Z.to_N b)) <$> bs).

(** An inbound message as the library hands it to the listener: the
    payload of the frame, and whether the frame was a binary one, which
    the handler does not look at. *)
Record Frame : Type := {
  isBinary : bool;
  payload : string
}.

(** [message.toString()]: the payload decoded as UTF-8.  A JavaScript
    string is held as its encoding in UTF-8, which is what [send] puts
    on the wire for it, in a text frame. *)
Definition Buffer_toString (m : Frame) : string :=
  of_bytes (UTF8.encode (UTF8.decode (bytes (payload m)))).

(** The frame in which [send] delivers a string. *)
Definition text_frame (s : string) : Frame :=
  {| isBinary := false; payload := s |}.

End Relay.

(** ** The design document's words

    The definitions of this module follow the wording of the design
    document, to be compared with the code above. *)

Module Design.

(** [t] clamped to [[lo, hi]]. *)
Definition clamp (lo hi t : number) : number :=
  JS.Math_min (JS.Math_max t lo) hi.

(** [lo <= x <= hi] on numbers, which no NaN satisfies. *)
Definition between (lo hi x : number) : bool :=
  (lo <=? x)%js && (x <=? hi)%js.

(** The zoom factor of a viewport lies in [[0.5, 5.0]]. *)
Definition zoomFactor_ok (z : number) : bool :=
  between (JS.of_Q 0.5) (JS.of_Z 5) z.

(** [skip(delta) = seek(currentTime + delta)], clamped. *)
Definition skip (video : BlueprintTerminal.VideoData) (delta : number)
    (st : BlueprintTerminal.State) : BlueprintTerminal.State :=
  BlueprintTerminal.seekTo
    (clamp (JS.of_Z 0) (BlueprintTerminal.duration video)
       (BlueprintTerminal.currentTime st + delta)%js)
    st.


Fixpoint sum (l : list number) : number :=
  match l with
  | [] => JS.of_Z 0
  | x :: l' => (x + sum l')%js
  end.

Definition mean (l : list number) : number :=
  (sum l / JS.of_nat (length l))%js.

Definition is_status (s : Dashboard.status_t) (b : Dashboard.Blueprint)
  : bool :=
  bool_decide (Dashboard.status b = s).

(** The clarity scores of the completed records. *)
Fixpoint completed_scores (records : list Dashboard.Blueprint)
  : list number :=
  match records with
  | [] => []
  | b :: records' =>
      if is_status Dashboard.completed b
      then Dashboard.clarityScore b :: completed_scores records'
      else completed_scores records'
  end.

(** [round(mean(clarityScore over status == completed))], 0 when no
    record is completed. *)
Definition averageClarity (records : list Dashboard.Blueprint) : number :=
  match completed_scores records with
  | [] => JS.of_Z 0
  | scores => JS.Math_round (mean scores)
  end.


(** A message is relayed verbatim when the frame that delivers the text
    handed to [send] is the frame that came in. *)
Definition verbatim (m : Relay.Frame) (sent : string) : Prop :=
  Relay.text_frame sent = m.

End Design.

(** ** Scenarios

    The states and the inputs at which the properties below are
    evaluated. *)

Module Scenarios.

Definition no_selection : SelectedElement :=
  {| sel_type := None; sel_id := None; timeStart := None; timeEnd := None;
     data := None |}.

(** The timeline of the media of 154 seconds at zoom 1, and the
    timeline of a media that lasts zero seconds. *)
Definition props_154 : Timeline.TimelineProps :=
  {| Timeline.duration := JS.of_Z 154;
     Timeline.currentTime := JS.of_Z 0;
     Timeline.selectedElement := no_selection;
     Timeline.zoomLevel := JS.of_Z 1;
     Timeline.scrollX := JS.of_Z 0 |}.

(** The timeline of a media of 2^1020 seconds, about 10^307, at zoom
    1. *)
Definition props_huge : Timeline.TimelineProps :=
  {| Timeline.duration := JS.of_Z (2 ^ 1020);
     Timeline.currentTime := JS.of_Z 0;
     Timeline.selectedElement := no_selection;
     Timeline.zoomLevel := JS.of_Z 1;
     Timeline.scrollX := JS.of_Z 0 |}.

Definition props_0 : Timeline.TimelineProps :=
  {| Timeline.duration := JS.of_Z 0;
     Timeline.currentTime := JS.of_Z 0;
     Timeline.selectedElement := no_selection;
     Timeline.zoomLevel := JS.of_Z 1;
     Timeline.scrollX := JS.of_Z 0 |}.

(** The scrollable track at the scroll offset [x], and a mounted, idle
    timeline over it. *)
Definition track_at (x : Z) : Timeline.HTMLDivElement :=
  {| Timeline.scrollLeft := JS.of_Z x; Timeline.rect_left := JS.of_Z 0 |}.

Definition mounted (x : Z) : Timeline.State :=
  Timeline.initial (Some (track_at x)).

(** The terminal with a bound media element, as it is first rendered,
    and the same terminal at the playback position [t]. *)
Definition video_at (t : Z) : BlueprintTerminal.HTMLVideoElement :=
  {| BlueprintTerminal.video_currentTime := JS.of_Z t;
     BlueprintTerminal.paused := true |}.

Definition bound : BlueprintTerminal.State :=
  BlueprintTerminal.initial (Some (video_at 0)).

Definition bound_at (t : Z) : BlueprintTerminal.State :=
  BlueprintTerminal.setCurrentTime (JS.of_Z t)
    (BlueprintTerminal.initial (Some (video_at t))).

(** A fetched record of the given status and clarity score. *)
Definition record (s : Dashboard.status_t) (score : Z) : Dashboard.Blueprint :=
  {| Dashboard.id := "b"; Dashboard.title := "t";
     Dashboard.thumbnail := "/thumb.png"; Dashboard.duration := "2:34";
     Dashboard.status := s; Dashboard.clarityScore := JS.of_Z score;
     Dashboard.createdAt := "2024-01-01" |}.



(** The data of a selected element with the score 0, and with the
    volume 0. *)
Definition score_0 : gmap string JS.value :=
  {[ "text" := JS.VString "Intro"; "score" := JS.VNumber (JS.of_Z 0) ]}.

Definition volume_0 : gmap string JS.value :=
  {[ "title" := JS.VString "Background Music";
     "volume" := JS.VNumber (JS.of_Z 0) ]}.

Definition selected (t : track) (o : gmap string JS.value) : SelectedElement :=
  {| sel_type := Some t; sel_id := Some "e1"; timeStart := None;
     timeEnd := None; data := Some o |}.

(** The first narrative beat of the mock timeline, and an error with a
    message and a stack. *)
Definition beat : Timeline.TimelineElement :=
  Timeline.mk "n1" narrative 0 10 "Intro to SaaS Platform" "bg-narrative".

Definition failure : ErrorBoundary.Error :=
  {| ErrorBoundary.message := "boom";
     ErrorBoundary.stack := Some "at render" |}.

(** A binary frame of the four bytes ff fe 00 41, and the text frame of
    the word "play". *)
Definition blob : Relay.Frame :=
  {| Relay.isBinary := true;
     Relay.payload := Relay.of_bytes [0xFF; 0xFE; 0x00; 0x41] |}.

Definition play : Relay.Frame := Relay.text_frame "play".

(** Three connections, and a message of the first of them. *)
Definition three (m : Relay.Frame) : Relay.WebSocketServer :=
  Relay.run Relay.Frame Relay.Buffer_toString
    [Relay.connection Relay.Frame 1; Relay.connection Relay.Frame 2;
     Relay.connection Relay.Frame 3; Relay.message Relay.Frame 1 m]
    {| Relay.clients := ∅ |}.

End Scenarios.

(** ** Notions used in the statements *)

Module Notions.


(** The actions that hand over a zoom level as it is are those of the
    slider, of the number input and of the zoom callback itself; an
    action is tame when it is not of the number input and the level it
    hands over, if any, lies in [[0.5, 5.0]]. *)
Definition tame (a : BlueprintTerminal.action) : bool :=
  match a with
  | BlueprintTerminal.Zoom (Timeline.ZoomInput _) => false
  | BlueprintTerminal.Zoom (Timeline.ZoomSlider value0 _) =>
      Design.zoomFactor_ok value0
  | BlueprintTerminal.FromTimeline (Timeline.onZoomChange z) =>
      Design.zoomFactor_ok z
  | _ => true
  end.

(** The play state of the terminal mirrors the media element: the
    element is paused exactly when the terminal is not playing, and a
    terminal without a media element is not playing. *)
Definition mirrors (st : BlueprintTerminal.State) : bool :=
  match BlueprintTerminal.videoRef st with
  | Some v =>
      bool_decide
        (BlueprintTerminal.paused v = negb (BlueprintTerminal.isPlaying st))
  | None => negb (BlueprintTerminal.isPlaying st)
  end.

(** The lines that the events of the realtime channel among the
    actions add to the log. *)
Definition socket_lines (l : list BlueprintTerminal.action) : list string :=
  omap
    (λ a,
       match a with
       | BlueprintTerminal.Socket e => Some (BlueprintTerminal.ws_line e)
       | _ => None
       end)
    l.

(** A number of seconds below sixty on two digits, and a whole number
    of seconds as minutes and seconds. *)
Definition two_digits (k : Z) : string :=
  if k <? 10 then "0" +:+ pretty k else pretty k.

Definition minutes_seconds (s : Z) : string :=
  pretty (s / 60) +:+ ":" +:+ two_digits (s mod 60).

(** Every connection of the relay was greeted first. *)
Definition greeted (wss : Relay.WebSocketServer) : Prop :=
  ∀ k client, Relay.clients wss !! k = Some client →
    ∃ rest, Relay.sent client = Relay.welcome :: rest.

(** The texts of the messages that did not come from the connection
    [k], in their order. *)
Definition from_others {RawData : Type} (toString : RawData → string)
    (k : nat) (ms : list (nat * RawData)) : list string :=
  (λ cm, toString cm.2) <$> filter (λ cm, cm.1 ≠ k) ms.

End Notions.

(** ** Arithmetic of numbers *)

Module NumberFacts.

Import JS.

(** Orders and equations on canonical rationals, taken to [Q]. *)
Ltac qc2q :=
  repeat (progress
            (unfold Qclt, Qcle, Qcminus, Qcdiv, Qcplus, Qcopp, Qcmult,
               Qc_of_Z, Q2Qc, inject_Z in *;
             cbn [this] in * ));
  repeat match goal with
         | H : context [Qred _] |- _ => rewrite !Qred_correct in H
         | |- context [Qred _] => rewrite !Qred_correct
         end.

Lemma Fin_eq (a b : Qc) : (a == b)%Q → Fin a = Fin b.
Proof. intros H. f_equal. by apply Qc_is_canon. Qed.

(** A number that evaluates to a finite one of the given value. *)
Lemma Fin_eq_bool (x : number) (q : Qc) :
  match x with Fin a => Qeq_bool a q | _ => false end = true → x = Fin q.
Proof.
  destruct x as [a| | |]; try done. intros H. by apply Fin_eq, Qeq_bool_iff.
Qed.

(** Equality of two closed numbers. *)
Ltac number_eq :=
  first [ reflexivity | apply Fin_eq; vm_compute; reflexivity ].

Lemma Qcsgn_Gt (q : Qc) : (0 < q)%Qc → Qcsgn q = Gt.
Proof. intros H. unfold Qcsgn. by apply Qcgt_alt. Qed.

Lemma Qcsgn_Eq (q : Qc) : Qcsgn q = Eq ↔ q = 0%Qc.
Proof. unfold Qcsgn. symmetry. apply Qceq_alt. Qed.

Lemma Qc_pos_neq (q : Qc) : (0 < q)%Qc → q ≠ 0%Qc.
Proof. intros H ->. by apply (irreflexivity Qclt 0%Qc). Qed.

Lemma div_pos (a b : Qc) :
  (0 < b)%Qc → (Fin a / Fin b)%js = Fin (a / b)%Qc.
Proof. intros Hb. unfold div. by rewrite (Qcsgn_Gt b Hb). Qed.

Lemma ltb_Fin (a b : Qc) : ltb (Fin a) (Fin b) = bool_decide (a < b)%Qc.
Proof.
  cbn [ltb]. pose proof (Qclt_alt a b) as H.
  destruct (a ?= b)%Qc eqn:E.
  - rewrite bool_decide_eq_false_2; [done|]. intros H'. by apply H in H'.
  - rewrite bool_decide_eq_true_2; [done|]. by apply H.
  - rewrite bool_decide_eq_false_2; [done|]. intros H'. by apply H in H'.
Qed.

Lemma Math_min_Fin (a b : Qc) :
  Math_min (Fin a) (Fin b) = Fin (if bool_decide (b < a)%Qc then b else a).
Proof. unfold Math_min. rewrite ltb_Fin. by case_bool_decide. Qed.

Lemma Math_max_Fin (a b : Qc) :
  Math_max (Fin a) (Fin b) = Fin (if bool_decide (a < b)%Qc then b else a).
Proof. unfold Math_max. rewrite ltb_Fin. by case_bool_decide. Qed.

(** Zero times anything, and anything times zero, is zero or NaN; what
    was divided by zero is never finite. *)
Lemma mul_zero_l (x : number) :
  (of_Z 0 * x)%js = of_Z 0 ∨ (of_Z 0 * x)%js = NaN.
Proof.
  destruct x as [q| | |]; [left|right..]; try reflexivity.
  change (Fin (Qc_of_Z 0 * q)%Qc = Fin (Qc_of_Z 0)).
  rewrite Z2Qc_inj_0. f_equal. ring.
Qed.

Lemma div_zero_not_finite (x : number) (q : Qc) :
  (x / of_Z 0)%js ≠ Fin q.
Proof. by destruct x as [a| | |]; cbn; [destruct (Qcsgn a)|..]. Qed.

Lemma mul_zero_r_not_finite (x : number) :
  (∀ q, x ≠ Fin q) → (x * of_Z 0)%js = NaN.
Proof. destruct x as [a| | |]; intros H; try done. by destruct (H a). Qed.

(** [x || 0] is [x], unless [x] is NaN. *)
Lemma number_or_0 (x : number) :
  isNaN x = false → number_or (Some x) (of_Z 0) = x.
Proof.
  destruct x as [q| | |]; try done. intros _. cbn [number_or truthy_number].
  destruct (Qcsgn q) eqn:E; try done.
  apply Qcsgn_Eq in E as ->. unfold of_Z. by rewrite Z2Qc_inj_0.
Qed.

Lemma sub_Fin (a b : Qc) : (Fin a - Fin b)%js = Fin (a - b)%Qc.
Proof. reflexivity. Qed.

Lemma add_Fin (a b : Qc) : (Fin a + Fin b)%js = Fin (a + b)%Qc.
Proof. reflexivity. Qed.

Lemma leb_Fin (a b : Qc) : leb (Fin a) (Fin b) = bool_decide (a ≤ b)%Qc.
Proof.
  cbn [leb]. rewrite ltb_Fin.
  case_bool_decide as H; cbn [negb].
  - rewrite bool_decide_eq_false_2; [done|]. by apply Qclt_nge.
  - rewrite bool_decide_eq_true_2; [done|]. by apply Qcle_ngt.
Qed.

(** A number between two finite bounds is finite and between them. *)
Lemma between_Fin (lo hi : Qc) (x : number) :
  Design.between (Fin lo) (Fin hi) x = true ↔
  ∃ q, x = Fin q ∧ (lo ≤ q ≤ hi)%Qc.
Proof.
  unfold Design.between. split.
  - destruct x as [q| | |]; try done. rewrite !leb_Fin.
    intros [H1 H2]%andb_prop. exists q. split; [done|].
    by apply bool_decide_eq_true in H1, H2.
  - intros (q & -> & H1 & H2). rewrite !leb_Fin.
    by rewrite !bool_decide_eq_true_2.
Qed.

(** Clamping leaves a number that is between the bounds as it is. *)
Lemma Math_max_ge (x lo : number) : leb lo x = true → Math_max x lo = x.
Proof.
  destruct x, lo; try done; unfold Math_max; cbn [leb];
    by intros ->%negb_true_iff.
Qed.

Lemma Math_min_le (x hi : number) : leb x hi = true → Math_min x hi = x.
Proof.
  destruct x, hi; try done; unfold Math_min; cbn [leb];
    by intros ->%negb_true_iff.
Qed.

Lemma clamp_between (lo hi x : number) :
  Design.between lo hi x = true → Design.clamp lo hi x = x.
Proof.
  intros [H1 H2]%andb_prop. unfold Design.clamp.
  by rewrite Math_max_ge, Math_min_le.
Qed.

End NumberFacts.

(** ** Rounding to double precision *)

Module Binary64Facts.

Import JS NumberFacts Binary64.

Lemma pow2_pos (e : Z) : (0 < pow2 e)%Q.
Proof. by apply Qpower_0_lt. Qed.

Lemma pow2_add (a b : Z) : (pow2 (a + b) == pow2 a * pow2 b)%Q.
Proof. by apply Qpower_plus. Qed.

Lemma pow2_le (a b : Z) : a ≤ b → (pow2 a <= pow2 b)%Q.
Proof. intros H. by apply Qpower_le_compat_l. Qed.

Lemma pow2_Z (n : Z) : 0 ≤ n → (inject_Z (2 ^ n) == pow2 n)%Q.
Proof. apply Zpower_Qpower. Qed.

Lemma pow2_half (e : Z) : (pow2 (e - 1) == (1 # 2) * pow2 e)%Q.
Proof.
  replace (e - 1) with (-1 + e) by lia. rewrite pow2_add. reflexivity.
Qed.

Lemma pow2_double (e : Z) : (pow2 (e + 1) == 2 * pow2 e)%Q.
Proof.
  replace (e + 1) with (1 + e) by lia. rewrite pow2_add. reflexivity.
Qed.

(** [ilog2 a] is at most the binary logarithm of [a]. *)
Lemma ilog2_le (a : Q) : (0 < a)%Q → (pow2 (ilog2 a) <= a)%Q.
Proof.
  intros Ha. unfold ilog2.
  set (l := Z.log2 (Qnum a) - Z.log2 (Z.pos (Qden a))).
  destruct (Qle_bool (pow2 l) a) eqn:E; [by apply Qle_bool_iff|].
  destruct a as [n d]. cbn [Qnum Qden] in *.
  assert (Hn : 0 < n) by (unfold Qlt in Ha; cbn in Ha; lia).
  destruct (Z.log2_spec n Hn) as [Hn1 _].
  destruct (Z.log2_spec (Z.pos d) eq_refl) as [_ Hd2].
  assert (H1 : (pow2 (Z.log2 n) <= inject_Z n)%Q).
  { rewrite <- pow2_Z by apply Z.log2_nonneg. by rewrite <- Zle_Qle. }
  assert (H2 : (inject_Z (Z.pos d) <= pow2 (Z.succ (Z.log2 (Z.pos d))))%Q).
  { rewrite <- pow2_Z by (apply Z.le_le_succ_r, Z.log2_nonneg).
    rewrite <- Zle_Qle. lia. }
  assert (H3 : (pow2 (l - 1) * pow2 (Z.succ (Z.log2 (Z.pos d)))
                == pow2 (Z.log2 n))%Q).
  { rewrite <- pow2_add. unfold l. f_equiv. lia. }
  pose proof (pow2_pos (l - 1)) as H4.
  assert (H5 : (0 < inject_Z (Z.pos d))%Q) by reflexivity.
  rewrite Qmake_Qdiv. apply Qle_shift_div_l; [done|].
  nra.
Qed.

(** And more than the binary logarithm less one. *)
Lemma ilog2_lt (a : Q) : (0 < a)%Q → (a < pow2 (ilog2 a + 1))%Q.
Proof.
  intros Ha. unfold ilog2.
  set (l := Z.log2 (Qnum a) - Z.log2 (Z.pos (Qden a))).
  destruct (Qle_bool (pow2 l) a) eqn:E.
  2:{ replace (l - 1 + 1) with l by lia. apply Qnot_le_lt. intros H.
      apply Qle_bool_iff in H. congruence. }
  destruct a as [n d]. cbn [Qnum Qden] in *.
  assert (Hn : 0 < n) by (unfold Qlt in Ha; cbn in Ha; lia).
  destruct (Z.log2_spec n Hn) as [_ Hn2].
  destruct (Z.log2_spec (Z.pos d) eq_refl) as [Hd1 _].
  assert (H1 : (inject_Z n < pow2 (Z.succ (Z.log2 n)))%Q).
  { rewrite <- pow2_Z by (apply Z.le_le_succ_r, Z.log2_nonneg).
    by rewrite <- Zlt_Qlt. }
  assert (H2 : (pow2 (Z.log2 (Z.pos d)) <= inject_Z (Z.pos d))%Q).
  { rewrite <- pow2_Z by apply Z.log2_nonneg. by rewrite <- Zle_Qle. }
  assert (H3 : (pow2 (l + 1) * pow2 (Z.log2 (Z.pos d))
                == pow2 (Z.succ (Z.log2 n)))%Q).
  { rewrite <- pow2_add. unfold l. f_equiv. lia. }
  pose proof (pow2_pos (l + 1)) as H4.
  pose proof (pow2_pos (Z.log2 (Z.pos d))) as H5.
  rewrite Qmake_Qdiv. apply Qlt_shift_div_r; [reflexivity|].
  nra.
Qed.

Lemma ilog2_mono (a b : Q) : (0 < a)%Q → (a <= b)%Q → ilog2 a ≤ ilog2 b.
Proof.
  intros Ha Hab.
  pose proof (ilog2_le a Ha) as H1.
  assert (Hb : (0 < b)%Q) by lra.
  pose proof (ilog2_lt b Hb) as H2.
  assert (H : (pow2 (ilog2 a) < pow2 (ilog2 b + 1))%Q) by lra.
  apply (Qpower_lt_compat_l_inv 2) in H; [lia | reflexivity].
Qed.

Lemma nearest_even_near (a : Q) :
  (Qabs (inject_Z (nearest_even a) - a) <= 1 # 2)%Q.
Proof.
  unfold nearest_even.
  pose proof (Qfloor_le a) as H1. pose proof (Qlt_floor a) as H2.
  rewrite inject_Z_plus in H2. change (inject_Z 1) with 1%Q in H2.
  apply Qabs_Qle_condition.
  destruct (a - inject_Z (Qfloor a) ?= 1 # 2)%Q eqn:E.
  - apply Qeq_alt in E. destruct (Z.even (Qfloor a));
      rewrite ?inject_Z_plus; change (inject_Z 1) with 1%Q; lra.
  - apply Qlt_alt in E. lra.
  - apply Qgt_alt in E. rewrite inject_Z_plus.
    change (inject_Z 1) with 1%Q. lra.
Qed.

(** A whole number is its own nearest whole number. *)
Lemma nearest_even_Z (a : Q) (k : Z) :
  (a == inject_Z k)%Q → nearest_even a = k.
Proof.
  intros H. unfold nearest_even.
  rewrite (Qfloor_comp _ _ H), Qfloor_Z.
  assert (E : (a - inject_Z k ?= 1 # 2)%Q = Lt); [|by rewrite E].
  apply (proj1 (Qlt_alt _ _)). lra.
Qed.

(** The nearest whole number of a number that is not above a whole
    number is not above it either, and that of a number that is not
    below zero is not below zero. *)
Lemma nearest_even_le_Z (a : Q) (k : Z) :
  (a <= inject_Z k)%Q → nearest_even a ≤ k.
Proof.
  intros H. unfold nearest_even.
  pose proof (Qfloor_le a) as H1.
  assert (Hf : Qfloor a ≤ k).
  { rewrite Zle_Qle. lra. }
  destruct (a - inject_Z (Qfloor a) ?= 1 # 2)%Q eqn:E; [|done|].
  - apply Qeq_alt in E. destruct (Z.even (Qfloor a)); [done|].
    destruct (decide (Qfloor a = k)) as [Hk|]; [|lia].
    rewrite Hk in E, H1. lra.
  - apply Qgt_alt in E.
    destruct (decide (Qfloor a = k)) as [Hk|]; [|lia].
    rewrite Hk in E, H1. lra.
Qed.

Lemma nearest_even_nonneg (a : Q) : (0 <= a)%Q → 0 ≤ nearest_even a.
Proof.
  intros H. unfold nearest_even.
  assert (Hf : 0 ≤ Qfloor a).
  { rewrite <- (Qfloor_Z 0). by apply Qfloor_resp_le. }
  destruct (a - inject_Z (Qfloor a) ?= 1 # 2)%Q; [|done|lia].
  destruct (Z.even (Qfloor a)); lia.
Qed.

Lemma unit_roundoff_small :
  (0 < unit_roundoff)%Q ∧ (unit_roundoff <= 1 # 2)%Q.
Proof. split; [reflexivity | discriminate]. Qed.

(** Inside the normal range the rounded value is finite and within the
    unit roundoff of the exact one, relatively. *)
Lemma round_pos_accurate (a : Q) :
  (pow2 (-1022) <= a)%Q → (a <= pow2 1023)%Q →
  ∃ r : Qc, round_pos a = Fin r ∧
            (Qabs (r - a) <= unit_roundoff * a)%Q.
Proof.
  intros Hlo Hhi. unfold round_pos.
  assert (Ha : (0 < a)%Q).
  { eapply Qlt_le_trans; [apply (pow2_pos (-1022))|done]. }
  set (e := Z.max (ilog2 a - 52) (-1074)).
  set (m := nearest_even (a / pow2 e)).
  pose proof (pow2_pos e) as He.
  assert (Herr : (pow2 (e - 1) <= unit_roundoff * a)%Q).
  { unfold unit_roundoff. destruct (Z.max_spec (ilog2 a - 52) (-1074))
      as [[_ E] | [_ E]]; fold e in E; rewrite E.
    - change (-1074 - 1) with (-53 + -1022). rewrite pow2_add.
      pose proof (pow2_pos (-53)). nra.
    - replace (ilog2 a - 52 - 1) with (-53 + ilog2 a) by lia.
      rewrite pow2_add. pose proof (pow2_pos (-53)).
      pose proof (ilog2_le a Ha). nra. }
  assert (Hm : (Qabs (inject_Z m * pow2 e - a) <= pow2 (e - 1))%Q).
  { pose proof (nearest_even_near (a / pow2 e)) as H. fold m in H.
    apply Qabs_Qle_condition in H. apply Qabs_Qle_condition.
    rewrite pow2_half.
    assert (E : (a == a / pow2 e * pow2 e)%Q) by (field; lra).
    set (b := (a / pow2 e)%Q) in *. clearbody b. nra. }
  destruct unit_roundoff_small as [_ Hu].
  assert (H24 : (pow2 1024 == 2 * pow2 1023)%Q) by reflexivity.
  destruct (Qle_bool (pow2 1024) (inject_Z m * pow2 e)) eqn:E.
  - apply Qle_bool_iff in E. apply Qabs_Qle_condition in Hm.
    exfalso. nra.
  - eexists. split; [done|]. cbn [this Q2Qc]. rewrite Qred_correct.
    by apply (Qle_trans _ _ _ Hm).
Qed.

(** A number above zero that is not above a number of the program is
    rounded to a finite number that is not above it, and not below
    zero. *)
Lemma round_pos_le (a b : Q) (b' : Qc) :
  (0 < a)%Q → (a <= b)%Q → round_pos b = Fin b' → (b' == b)%Q →
  ∃ r : Qc, round_pos a = Fin r ∧ (0 <= r)%Q ∧ (r <= b)%Q.
Proof.
  intros Ha Hab Hb Hb'. unfold round_pos in *.
  set (ea := Z.max (ilog2 a - 52) (-1074)).
  set (eb := Z.max (ilog2 b - 52) (-1074)) in *.
  set (mb := nearest_even (b / pow2 eb)) in *.
  assert (He : ea ≤ eb).
  { pose proof (ilog2_mono a b Ha Hab). unfold ea, eb. lia. }
  destruct (Qle_bool (pow2 1024) (inject_Z mb * pow2 eb)) eqn:E; [done|].
  injection Hb as <-. cbn [this Q2Qc] in Hb'. rewrite Qred_correct in Hb'.
  assert (Hfin : (inject_Z mb * pow2 eb < pow2 1024)%Q).
  { apply Qnot_le_lt. intros H. apply Qle_bool_iff in H. congruence. }
  pose proof (pow2_pos ea) as Hea. pose proof (pow2_pos eb) as Heb.
  assert (Hk : (pow2 eb == inject_Z (2 ^ (eb - ea)) * pow2 ea)%Q).
  { rewrite pow2_Z by lia. rewrite <- pow2_add. f_equiv. lia. }
  assert (Hq : (a / pow2 ea <= inject_Z (mb * 2 ^ (eb - ea)))%Q).
  { apply Qle_shift_div_r; [done|]. rewrite inject_Z_mult.
    rewrite <- Qmult_assoc, <- Hk. lra. }
  pose proof (nearest_even_le_Z _ _ Hq) as Hm.
  assert (H0 : 0 ≤ nearest_even (a / pow2 ea)).
  { apply nearest_even_nonneg, Qlt_le_weak, Qlt_shift_div_l; lra. }
  set (ma := nearest_even (a / pow2 ea)) in *.
  assert (Hr : (inject_Z ma * pow2 ea <= b)%Q).
  { rewrite <- Hb', Hk, Qmult_assoc, <- inject_Z_mult.
    apply Qmult_le_compat_r; [|lra]. by rewrite <- Zle_Qle. }
  assert (Hr0 : (0 <= inject_Z ma * pow2 ea)%Q).
  { apply Qmult_le_0_compat; [|lra].
    change 0%Q with (inject_Z 0). by rewrite <- Zle_Qle. }
  destruct (Qle_bool (pow2 1024) (inject_Z ma * pow2 ea)) eqn:E'.
  { apply Qle_bool_iff in E'. lra. }
  eexists. split; [done|]. cbn [this Q2Qc]. by rewrite Qred_correct.
Qed.

Lemma round_between (a b : Qc) :
  (0 <= a)%Q → (a <= b)%Q → representable b →
  ∃ r : Qc, round (Fin a) = Fin r ∧ (0 <= r)%Q ∧ (r <= b)%Q.
Proof.
  intros Ha Hab Hb. unfold round. unfold Qcsgn.
  destruct (a ?= 0)%Qc eqn:E.
  - exists a. by repeat split.
  - apply Qclt_alt in E. change (a < 0)%Q in E. lra.
  - apply Qcgt_alt in E. change (0 < a)%Q in E.
    assert (Hb0 : (0 < b)%Qc) by (change (0 < b)%Q; lra).
    unfold representable, round in Hb. rewrite (Qcsgn_Gt b Hb0) in Hb.
    by apply (round_pos_le a b b).
Qed.

(** The whole numbers below 2^53 are numbers of the program. *)
Lemma round_pos_whole (a : Q) (m : Z) :
  (a == inject_Z m)%Q → 0 < m < 2 ^ 53 →
  round_pos a = Fin (Qc_of_Z m).
Proof.
  intros Ham [Hm0 Hm]. unfold round_pos.
  assert (Ha : (0 < a)%Q).
  { rewrite Ham. change 0%Q with (inject_Z 0). by rewrite <- Zlt_Qlt. }
  set (e := Z.max (ilog2 a - 52) (-1074)).
  assert (He : e ≤ 0).
  { pose proof (ilog2_le a Ha) as H.
    assert (H' : (pow2 (ilog2 a) < pow2 53)%Q).
    { eapply Qle_lt_trans; [exact H|]. rewrite Ham.
      rewrite <- (pow2_Z 53) by done. by rewrite <- Zlt_Qlt. }
    apply (Qpower_lt_compat_l_inv 2) in H'; [|reflexivity]. unfold e. lia. }
  pose proof (pow2_pos e) as Hp.
  assert (Hk : (pow2 e * inject_Z (2 ^ (- e)) == 1)%Q).
  { rewrite pow2_Z by lia. rewrite <- pow2_add.
    replace (e + - e) with 0 by lia. reflexivity. }
  assert (Hq : (a / pow2 e == inject_Z (m * 2 ^ (- e)))%Q).
  { rewrite inject_Z_mult, Ham.
    apply (Qmult_inj_r _ _ (pow2 e)); [lra|].
    rewrite <- Qmult_assoc, (Qmult_comm (inject_Z (2 ^ _))), Hk. field. lra. }
  rewrite (nearest_even_Z _ _ Hq).
  assert (Hr : (inject_Z (m * 2 ^ (- e)) * pow2 e == inject_Z m)%Q).
  { rewrite inject_Z_mult, <- Qmult_assoc,
      (Qmult_comm (inject_Z (2 ^ _))), Hk. ring. }
  destruct (Qle_bool (pow2 1024) _) eqn:E.
  { apply Qle_bool_iff in E. rewrite Hr in E.
    assert (H' : (inject_Z m < pow2 1024)%Q).
    { rewrite <- (pow2_Z 1024) by done. rewrite <- Zlt_Qlt.
      assert (2 ^ 53 < 2 ^ 1024) by (by apply Z.pow_lt_mono_r). lia. }
    lra. }
  apply Fin_eq. cbn [this Q2Qc]. by rewrite Qred_correct.
Qed.

Lemma round_Z (m : Z) :
  - 2 ^ 53 < m < 2 ^ 53 → round (of_Z m) = of_Z m.
Proof.
  intros Hm. unfold round, of_Z, Qcsgn.
  destruct (Qc_of_Z m ?= 0)%Qc eqn:E; [done| |].
  - apply Qclt_alt in E. rewrite <- Z2Qc_inj_0 in E.
    apply (proj2 (Z2Qc_inj_lt _ _)) in E.
    rewrite (round_pos_whole _ (- m)).
    + cbn [neg]. f_equal. rewrite Z2Qc_inj_opp. ring.
    + unfold Qc_of_Z. cbn [this]. by rewrite inject_Z_opp.
    + lia.
  - apply Qcgt_alt in E. rewrite <- Z2Qc_inj_0 in E.
    apply (proj2 (Z2Qc_inj_lt _ _)) in E.
    apply round_pos_whole; [reflexivity | lia].
Qed.

(** The same for a number between two powers of two of the normal
    range; the rounded value is between the neighbouring powers. *)
Lemma round_Fin (q : Qc) (lo hi : Z) :
  -1022 ≤ lo → hi ≤ 1023 → (pow2 lo <= q)%Q → (q <= pow2 hi)%Q →
  ∃ r : Qc, round (Fin q) = Fin r ∧
    within (1 - unit_roundoff) (1 + unit_roundoff) q r ∧
    (pow2 (lo - 1) <= r)%Q ∧ (r <= pow2 (hi + 1))%Q.
Proof.
  intros Hlo Hhi Hq1 Hq2.
  pose proof (pow2_pos lo) as Hp. pose proof (pow2_le _ _ Hlo) as Hl.
  pose proof (pow2_le _ _ Hhi) as Hh.
  assert (Hq : (0 < q)%Qc) by (change (0 < q)%Q; lra).
  unfold round. rewrite (Qcsgn_Gt q Hq).
  destruct (round_pos_accurate q) as (r & -> & Hr); [lra..|].
  exists r. split; [done|]. apply Qabs_Qle_condition in Hr.
  destruct unit_roundoff_small as [Hu0 Hu].
  rewrite pow2_half, pow2_double. unfold within. nra.
Qed.

Lemma mul_Fin (a b : Qc) (lo hi : Z) :
  -1022 ≤ lo → hi ≤ 1023 → (pow2 lo <= a * b)%Q → (a * b <= pow2 hi)%Q →
  ∃ r : Qc, (Fin a * Fin b)%double = Fin r ∧
    within (1 - unit_roundoff) (1 + unit_roundoff) (a * b) r ∧
    (pow2 (lo - 1) <= r)%Q ∧ (r <= pow2 (hi + 1))%Q.
Proof.
  intros Hlo Hhi H1 H2. unfold Binary64.mul. cbn [JS.mul].
  assert (E : ((a * b)%Qc == a * b)%Q) by apply Qred_correct.
  destruct (round_Fin (a * b)%Qc lo hi) as (r & Hr & Hw & Hrange);
    [done | done | by rewrite E.. |].
  exists r. unfold within in *. by rewrite <- E.
Qed.

Lemma div_Fin (a b : Qc) (lo hi : Z) :
  -1022 ≤ lo → hi ≤ 1023 → (0 < b)%Q →
  (pow2 lo <= a / b)%Q → (a / b <= pow2 hi)%Q →
  ∃ r : Qc, (Fin a / Fin b)%double = Fin r ∧
    within (1 - unit_roundoff) (1 + unit_roundoff) (a / b) r ∧
    (pow2 (lo - 1) <= r)%Q ∧ (r <= pow2 (hi + 1))%Q.
Proof.
  intros Hlo Hhi Hb H1 H2. unfold Binary64.div.
  rewrite (div_pos a b) by done.
  assert (E : ((a / b)%Qc == a / b)%Q).
  { unfold Qcdiv, Qcmult, Qcinv, Q2Qc. cbn [this].
    by rewrite !Qred_correct. }
  destruct (round_Fin (a / b)%Qc lo hi) as (r & Hr & Hw & Hrange);
    [done | done | by rewrite E.. |].
  exists r. unfold within in *. by rewrite <- E.
Qed.

(** Zero is a double, and zero multiplied or divided stays zero. *)
Lemma round_zero : round (of_Z 0) = of_Z 0.
Proof. reflexivity. Qed.

Lemma mul_zero (b : Qc) : (of_Z 0 * Fin b)%double = of_Z 0.
Proof.
  unfold Binary64.mul, of_Z. cbn [JS.mul].
  replace (Qc_of_Z 0 * b)%Qc with (Qc_of_Z 0) by (rewrite Z2Qc_inj_0; ring).
  reflexivity.
Qed.

Lemma div_zero (b : Qc) : (0 < b)%Qc → (of_Z 0 / Fin b)%double = of_Z 0.
Proof.
  intros Hb. unfold Binary64.div, of_Z. rewrite (div_pos _ b Hb).
  replace (Qc_of_Z 0 / b)%Qc with (Qc_of_Z 0)
    by (rewrite Z2Qc_inj_0; field; by apply Qc_pos_neq).
  reflexivity.
Qed.

(** Products and quotients of numbers between powers of two. *)
Lemma pow2_mul_range (x y : Q) (a b c d : Z) :
  (pow2 a <= x)%Q → (x <= pow2 b)%Q → (pow2 c <= y)%Q → (y <= pow2 d)%Q →
  (pow2 (a + c) <= x * y)%Q ∧ (x * y <= pow2 (b + d))%Q.
Proof.
  intros H1 H2 H3 H4. rewrite !pow2_add.
  pose proof (pow2_pos a). pose proof (pow2_pos c). split; nra.
Qed.

Lemma pow2_div_range (x y : Q) (a b c d : Z) :
  (pow2 a <= x)%Q → (x <= pow2 b)%Q → (pow2 c <= y)%Q → (y <= pow2 d)%Q →
  (pow2 (a - d) <= x / y)%Q ∧ (x / y <= pow2 (b - c))%Q.
Proof.
  intros H1 H2 H3 H4.
  pose proof (pow2_pos a). pose proof (pow2_pos c).
  assert (Hy : (0 < y)%Q) by lra.
  assert (Ea : (pow2 a == pow2 (a - d) * pow2 d)%Q).
  { rewrite <- pow2_add. f_equiv. lia. }
  assert (Eb : (pow2 b == pow2 (b - c) * pow2 c)%Q).
  { rewrite <- pow2_add. f_equiv. lia. }
  pose proof (pow2_pos (a - d)). pose proof (pow2_pos (b - c)).
  split.
  - apply Qle_shift_div_l; [done|]. nra.
  - apply Qle_shift_div_r; [done|]. nra.
Qed.

(** Factors of closeness compose. *)
Lemma within_eq (lo hi x x' r : Q) :
  (x == x')%Q → within lo hi x r → within lo hi x' r.
Proof. unfold within. by intros ->. Qed.

Lemma within_mul (lo hi x r c : Q) :
  (0 <= c)%Q → within lo hi x r → within lo hi (x * c) (r * c).
Proof. unfold within. intros Hc [H1 H2]. split; nra. Qed.

Lemma within_div (lo hi x r c : Q) :
  (0 < c)%Q → within lo hi x r → within lo hi (x / c) (r / c).
Proof.
  intros Hc H. unfold Qdiv. apply within_mul; [|done].
  apply Qlt_le_weak, Qinv_lt_0_compat, Hc.
Qed.

Lemma within_trans (lo1 hi1 lo2 hi2 x y r : Q) :
  (0 <= lo2)%Q → (0 <= hi2)%Q →
  within lo1 hi1 x y → within lo2 hi2 y r →
  within (lo1 * lo2) (hi1 * hi2) x r.
Proof. unfold within. intros Hl Hh [H1 H2] [H3 H4]. split; nra. Qed.

Lemma within_mul2 (lo1 hi1 lo2 hi2 x1 r1 x2 r2 : Q) :
  (0 <= x1)%Q → (0 <= x2)%Q → (0 <= lo1)%Q → (0 <= lo2)%Q →
  within lo1 hi1 x1 r1 → within lo2 hi2 x2 r2 →
  within (lo1 * lo2) (hi1 * hi2) (x1 * x2) (r1 * r2).
Proof.
  unfold within. intros Hx1 Hx2 Hl1 Hl2 [H1 H2] [H3 H4].
  assert (0 <= x1 * lo1)%Q by nra. assert (0 <= x2 * lo2)%Q by nra.
  split; nra.
Qed.

(** Factors that four roundings in a row can give stay within five unit
    roundoffs. *)
Lemma few_roundings (lo hi t r : Q) :
  (1 - 5 * unit_roundoff <= lo)%Q → (hi <= 1 + 5 * unit_roundoff)%Q →
  (0 <= t)%Q → within lo hi t r →
  (Qabs (r - t) <= 5 * unit_roundoff * t)%Q.
Proof.
  intros Hlo Hhi Ht [H1 H2]. apply Qabs_Qle_condition. split; nra.
Qed.

End Binary64Facts.

(** ** The timeline: mapping between times and pixels *)

Module TimelineFacts.

Import Binary64 JS NumberFacts Binary64Facts Timeline Scenarios.

Section Mapping.

Variable props : TimelineProps.

Lemma totalWidth_finite (d z : Qc) :
  duration props = Fin d → zoomLevel props = Fin z →
  totalWidth props = Fin (d * Qc_of_Z 50 * z)%Qc.
Proof. unfold totalWidth. by intros -> ->. Qed.

Lemma totalWidth_pos (d z : Qc) :
  (0 < d)%Qc → (0 < z)%Qc → (0 < d * Qc_of_Z 50 * z)%Qc.
Proof. intros Hd Hz. qc2q. nra. Qed.

(** With a zero duration the total width is zero, or NaN when the zoom
    level is not finite. *)
Lemma totalWidth_zero_duration :
  duration props = of_Z 0 →
  totalWidth props = of_Z 0 ∨ totalWidth props = NaN.
Proof.
  unfold totalWidth. intros ->.
  destruct (mul_zero_l PIXELS_PER_SECOND_BASE) as [-> | H].
  - apply mul_zero_l.
  - discriminate H.
Qed.

Lemma timeToPixels_zero_duration (t : number) :
  duration props = of_Z 0 → timeToPixels props t = NaN.
Proof.
  intros Hd. unfold timeToPixels.
  destruct (totalWidth_zero_duration Hd) as [-> | ->].
  - rewrite Hd. apply mul_zero_r_not_finite. intros q. apply div_zero_not_finite.
  - by destruct (t / duration props)%js.
Qed.

Lemma pixelsToTime_zero_duration (x : number) :
  duration props = of_Z 0 → pixelsToTime props x = NaN.
Proof.
  intros Hd. unfold pixelsToTime.
  destruct (totalWidth_zero_duration Hd) as [-> | ->]; rewrite Hd.
  - apply mul_zero_r_not_finite. intros q. apply div_zero_not_finite.
  - by destruct x.
Qed.

End Mapping.

(** The total width in double precision, for a duration and a zoom
    level between 2^-100 and 2^100: two roundings away from
    [duration * 50 * zoom]. *)
Lemma totalWidth_double (props : TimelineProps) (d z : Qc) :
  duration props = Fin d →
  zoomLevel props = Fin z →
  (pow2 (-100) <= d <= pow2 100)%Q →
  (pow2 (-100) <= z <= pow2 100)%Q →
  ∃ w : Qc, Binary64.totalWidth props = Fin w ∧
            (pow2 (-202) <= w)%Q ∧ (w <= pow2 208)%Q ∧
            within ((1 - unit_roundoff) * (1 - unit_roundoff))
                   ((1 + unit_roundoff) * (1 + unit_roundoff))
                   (d * Qc_of_Z 50 * z) w.
Proof.
  intros Hd Hz [Hd1 Hd2] [Hz1 Hz2].
  unfold Binary64.totalWidth, PIXELS_PER_SECOND_BASE, of_Z. rewrite Hd, Hz.
  assert (H50 : (pow2 0 <= Qc_of_Z 50)%Q ∧ (Qc_of_Z 50 <= pow2 6)%Q)
    by (split; discriminate).
  destruct H50 as [H50 H50'].
  destruct (pow2_mul_range _ _ _ _ _ _ Hd1 Hd2 H50 H50') as [H1 H2].
  destruct (mul_Fin d (Qc_of_Z 50) (-100 + 0) (100 + 6))
    as (w1 & -> & A1 & Hw1 & Hw1'); [done..|].
  destruct (pow2_mul_range _ _ _ _ _ _ Hw1 Hw1' Hz1 Hz2) as [H3 H4].
  destruct (mul_Fin w1 z (-100 + 0 - 1 + -100) (100 + 6 + 1 + 100))
    as (w & -> & A2 & Hw & Hw'); [done..|].
  exists w. do 3 (split; [done|]).
  destruct unit_roundoff_small as [Hu0 Hu].
  pose proof (pow2_pos (-100)).
  refine (within_trans _ _ _ _ _ _ _ _ _ _ A2); [lra..|].
  apply within_mul; [lra | exact A1].
Qed.

(** The round trip in double precision: the four rounded operations
    give the time back up to five unit roundoffs. *)
Lemma round_trip_double (props : TimelineProps) (d z t : Qc) :
  duration props = Fin d →
  zoomLevel props = Fin z →
  (pow2 (-100) <= d <= pow2 100)%Q →
  (pow2 (-100) <= z <= pow2 100)%Q →
  (pow2 (-100) <= t <= d)%Q →
  ∃ t' : Qc,
    Binary64.pixelsToTime props (Binary64.timeToPixels props (Fin t)) =
      Fin t' ∧
    (Qabs (t' - t) <= 5 * unit_roundoff * t)%Q.
Proof.
  intros Hd Hz Hdr Hzr [Ht1 Ht2].
  destruct (totalWidth_double props d z Hd Hz Hdr Hzr)
    as (w & Hw & Hw1 & Hw2 & _).
  destruct Hdr as [Hd1 Hd2].
  pose proof (pow2_pos (-100)) as Hp. pose proof (pow2_pos (-202)) as Hp'.
  assert (Hd0 : (0 < d)%Q) by lra. assert (Hw0 : (0 < w)%Q) by lra.
  assert (Ht0 : (0 <= t)%Q) by lra.
  unfold Binary64.pixelsToTime, Binary64.timeToPixels. rewrite Hw, Hd.
  (* t / d *)
  assert (Hq : (pow2 (-100 - 100) <= t / d)%Q ∧ (t / d <= pow2 0)%Q).
  { split; [apply (pow2_div_range t d (-100) 100 (-100) 100); lra|].
    apply Qle_shift_div_r; [done|]. change (pow2 0) with 1%Q. lra. }
  destruct Hq as [Hq Hq'].
  destruct (div_Fin t d (-100 - 100) 0) as (q1 & -> & A1 & Hq1 & Hq1');
    [done..|].
  (* q1 * w *)
  destruct (pow2_mul_range _ _ _ _ _ _ Hq1 Hq1' Hw1 Hw2) as [H1 H2].
  destruct (mul_Fin q1 w (-100 - 100 - 1 + -202) (0 + 1 + 208))
    as (x & -> & A2 & Hx & Hx'); [done..|].
  (* x / w *)
  destruct (pow2_div_range _ _ _ _ _ _ Hx Hx' Hw1 Hw2) as [H3 H4].
  destruct (div_Fin x w (-100 - 100 - 1 + -202 - 1 - 208)
              (0 + 1 + 208 + 1 - -202))
    as (q2 & -> & A3 & Hq2 & Hq2'); [done..|].
  (* q2 * d *)
  destruct (pow2_mul_range _ _ _ _ _ _ Hq2 Hq2' Hd1 Hd2) as [H5 H6].
  destruct (mul_Fin q2 d (-100 - 100 - 1 + -202 - 1 - 208 - 1 + -100)
              (0 + 1 + 208 + 1 - -202 + 1 + 100))
    as (t' & -> & A4 & _); [done..|].
  exists t'. split; [done|].
  destruct unit_roundoff_small as [Hu0 Hu].
  assert (Hlo : (0 <= 1 - unit_roundoff)%Q) by lra.
  assert (Hhi : (0 <= 1 + unit_roundoff)%Q) by lra.
  eapply few_roundings; [| |done|];
    [| |refine (within_trans _ _ _ _ _ _ _ Hlo Hhi _ A4);
         apply (within_eq _ _ (t / d * d)); [field; lra|];
         apply within_mul; [lra|];
         refine (within_trans _ _ _ _ _ _ _ Hlo Hhi _ A3);
         apply (within_eq _ _ (t / d * w / w)); [field; lra|];
         apply within_div; [done|];
         refine (within_trans _ _ _ _ _ _ _ Hlo Hhi _ A2);
         apply within_mul; [lra | exact A1]];
    apply Qle_bool_iff; vm_compute; reflexivity.
Qed.

(** At time zero the round trip in double precision is exact. *)
Lemma round_trip_double_zero (props : TimelineProps) (d z : Qc) :
  duration props = Fin d →
  zoomLevel props = Fin z →
  (pow2 (-100) <= d <= pow2 100)%Q →
  (pow2 (-100) <= z <= pow2 100)%Q →
  Binary64.pixelsToTime props (Binary64.timeToPixels props (of_Z 0)) =
    of_Z 0.
Proof.
  intros Hd Hz Hdr Hzr.
  destruct (totalWidth_double props d z Hd Hz Hdr Hzr)
    as (w & Hw & Hw1 & Hw2 & _).
  destruct Hdr as [Hd1 Hd2].
  pose proof (pow2_pos (-100)) as Hp. pose proof (pow2_pos (-202)) as Hp'.
  assert (Hd0 : (0 < d)%Qc) by (change (0 < d)%Q; lra).
  assert (Hw0 : (0 < w)%Qc) by (change (0 < w)%Q; lra).
  unfold Binary64.pixelsToTime, Binary64.timeToPixels. rewrite Hw, Hd.
  by rewrite (div_zero d Hd0), mul_zero, (div_zero w Hw0), mul_zero.
Qed.

(** C1, as stated, fails in double precision at the far end of the
    range of numbers: for a duration of 2^1020 seconds the total width
    overflows to Infinity, the pixel offset of the time 1 is Infinity,
    and it maps back to NaN. *)
Lemma round_trip_overflows :
  Binary64.totalWidth props_huge = PInf ∧
  Binary64.timeToPixels props_huge (of_Z 1) = PInf ∧
  Binary64.pixelsToTime props_huge (Binary64.timeToPixels props_huge (of_Z 1)) =
    NaN.
Proof. repeat split; vm_compute; reflexivity. Qed.

(** C1, amended. For a duration and a zoom level above zero and a time
    [t] between zero and the duration, the time mapped to its pixel
    offset, [(t / duration) * totalWidth], and mapped back,
    [(pixels / totalWidth) * duration], is [t] again:
    - exactly, on rational numbers;
    - up to a tolerance in double precision, where each of the four
      operations rounds, away from overflow and underflow: for a
      duration and a zoom level between 2^-100 and 2^100 and a time
      that is zero or at least 2^-100, the result is a finite number
      [t'] with [|t' - t| <= 5 * 2^-53 * t]. *)
Theorem pixelsToTime_timeToPixels (props : TimelineProps) (d z t : Qc) :
  duration props = Fin d →
  zoomLevel props = Fin z →
  (0 < d)%Qc →
  (0 < z)%Qc →
  (0 ≤ t ≤ d)%Qc →
  pixelsToTime props (timeToPixels props (Fin t)) = Fin t ∧
  ((pow2 (-100) <= d <= pow2 100)%Q →
   (pow2 (-100) <= z <= pow2 100)%Q →
   t = 0%Qc ∨ (pow2 (-100) <= t)%Q →
   ∃ t' : Qc,
     Binary64.pixelsToTime props (Binary64.timeToPixels props (Fin t)) =
       Fin t' ∧
     (Qabs (t' - t) <= 5 * unit_roundoff * t)%Q).
Proof.
  intros Hd Hz Hd0 Hz0 [_ Htd]. split.
  - pose proof (totalWidth_pos d z Hd0 Hz0) as Hw.
    unfold pixelsToTime, timeToPixels.
    rewrite (totalWidth_finite props d z Hd Hz), Hd.
    rewrite (div_pos t d Hd0). cbn [mul].
    rewrite (div_pos _ _ Hw). cbn [mul].
    f_equal. field. repeat split; first [by apply Qc_pos_neq | discriminate].
  - intros Hdr Hzr [-> | Ht].
    + exists 0%Qc. split; [|discriminate]. rewrite <- Z2Qc_inj_0.
      apply (round_trip_double_zero props d z Hd Hz Hdr Hzr).
    + by apply (round_trip_double props d z t Hd Hz Hdr Hzr).
Qed.

Lemma pixelsToTime_timeToPixels_witness :
  pixelsToTime props_154 (timeToPixels props_154 (of_Z 77)) = of_Z 77 ∧
  ∃ t' : Qc,
    Binary64.pixelsToTime props_154
      (Binary64.timeToPixels props_154 (of_Z 77)) = Fin t' ∧
    (Qabs (t' - Qc_of_Z 77) <= 5 * unit_roundoff * Qc_of_Z 77)%Q.
Proof.
  destruct (pixelsToTime_timeToPixels props_154 (Qc_of_Z 154) (Qc_of_Z 1)
              (Qc_of_Z 77)) as [H1 H2]; try reflexivity.
  - split; discriminate.
  - split; [exact H1|]. apply H2.
    + split; discriminate.
    + split; discriminate.
    + right. discriminate.
Defined.

(** In double precision the round trip is not exact: at 154 seconds and
    zoom 1 the time 5 comes back as 5 - 2^-50, which prints as
    4.999999999999999. *)
Example round_trip_of_5 :
  Binary64.pixelsToTime props_154 (Binary64.timeToPixels props_154 (of_Z 5)) =
    Fin (Q2Qc (5 - pow2 (-50))).
Proof. apply Fin_eq_bool. vm_compute. reflexivity. Qed.

(** The width is 7700 pixels at a duration of 154 seconds and zoom 1,
    and the pixel 3850 is the time 77. *)
Example totalWidth_154 : totalWidth props_154 = of_Z 7700.
Proof. number_eq. Qed.

Example pixelsToTime_3850 : pixelsToTime props_154 (of_Z 3850) = of_Z 77.
Proof. number_eq. Qed.

(** A click on the track where the indicator stands scrubs to the
    current time. *)
Lemma click_on_indicator (props : TimelineProps) (d z t : Qc)
    (st : State) (el : HTMLDivElement) (clientX : number) :
  duration props = Fin d → zoomLevel props = Fin z →
  currentTime props = Fin t →
  (0 < d)%Qc → (0 < z)%Qc →
  timelineRef st = Some el → isDragging st = false →
  (clientX - rect_left el + scrollLeft el)%js = indicatorPosition props →
  handleTimelineClick props clientX st = [onScrub (Fin t)].
Proof.
  intros Hd Hz Ht Hd0 Hz0 Hel Hdrag Hx.
  pose proof (totalWidth_pos d z Hd0 Hz0) as Hw.
  unfold handleTimelineClick. rewrite Hel, Hdrag, Hx.
  unfold indicatorPosition, pixelsToTime, timeToPixels.
  rewrite (totalWidth_finite props d z Hd Hz), Hd, Ht.
  rewrite (div_pos t d Hd0). cbn [mul].
  rewrite (div_pos _ _ Hw). cbn [mul].
  apply (f_equal (λ q, [onScrub (Fin q)])). field.
  repeat split; first [by apply Qc_pos_neq | discriminate].
Qed.

(** C2, as stated, fails: with a duration of zero a click at pixel 100
    is not rejected, the handler calls [onScrub] with NaN; the width is
    zero and the indicator stands at NaN. *)
Lemma zero_duration_not_rejected :
  totalWidth props_0 = of_Z 0 ∧
  handleTimelineClick props_0 (of_Z 100) (mounted 0) = [onScrub NaN] ∧
  indicatorPosition props_0 = NaN.
Proof. split; [number_eq | split; reflexivity]. Qed.

(** C2, amended. With a duration of zero nothing is rejected: every
    time maps to the pixel offset NaN, every pixel offset maps back to
    the time NaN, and a click on the mounted, idle track calls
    [onScrub] with NaN. *)
Theorem zero_duration_gives_NaN (props : TimelineProps) (st : State)
    (el : HTMLDivElement) (clientX : number) :
  duration props = of_Z 0 →
  timelineRef st = Some el →
  isDragging st = false →
  (∀ t, timeToPixels props t = NaN) ∧
  (∀ x, pixelsToTime props x = NaN) ∧
  handleTimelineClick props clientX st = [onScrub NaN].
Proof.
  intros Hd Hel Hdrag. split; [|split].
  - intros t. by apply timeToPixels_zero_duration.
  - intros x. by apply pixelsToTime_zero_duration.
  - unfold handleTimelineClick. rewrite Hel, Hdrag.
    by rewrite pixelsToTime_zero_duration.
Qed.

Lemma zero_duration_gives_NaN_witness :
  (∀ t, timeToPixels props_0 t = NaN) ∧
  (∀ x, pixelsToTime props_0 x = NaN) ∧
  handleTimelineClick props_0 (of_Z 100) (mounted 0) = [onScrub NaN].
Proof.
  apply (zero_duration_gives_NaN props_0 (mounted 0) (track_at 0) (of_Z 100));
    reflexivity.
Defined.

(** *** Dragging *)

(** Outside a drag a pointer move changes nothing. *)
Lemma handleMouseMove_idle (clientX : number) (st : State) :
  isDragging st = false → handleMouseMove clientX st = st.
Proof. unfold handleMouseMove. by intros ->. Qed.

Lemma handleMouseMove_dragging (clientX : number) (st : State)
    (el : HTMLDivElement) :
  isDragging st = true → timelineRef st = Some el →
  handleMouseMove clientX st =
    {| isDragging := true; dragStartX := dragStartX st;
       startScrollX := startScrollX st;
       timelineRef :=
         Some {| scrollLeft := (startScrollX st - (clientX - dragStartX st))%js;
                 rect_left := rect_left el |} |}.
Proof. unfold handleMouseMove. by intros -> ->. Qed.

(** The moves of a drag leave its anchor alone. *)
Lemma drag_keeps_anchor (moves : list number) (st : State)
    (el : HTMLDivElement) :
  isDragging st = true → timelineRef st = Some el →
  isDragging (drag moves st) = true ∧
  dragStartX (drag moves st) = dragStartX st ∧
  startScrollX (drag moves st) = startScrollX st ∧
  ∃ el', timelineRef (drag moves st) = Some el'.
Proof.
  revert st el. induction moves as [|m moves IH]; intros st el Hd Hel.
  - cbn. eauto.
  - cbn [drag fold_left].
    rewrite (handleMouseMove_dragging m st el Hd Hel).
    edestruct IH as (H1 & H2 & H3 & H4); [..|repeat split; eauto]; done.
Qed.

(** C7. During a drag, begun by a pointer-down at [x0] on the mounted
    track, every pointer move, whatever moves came before it, sets the
    scroll offset to the offset at which the drag began minus the
    distance of the pointer from [x0]. *)
Theorem drag_sets_scrollLeft (st : State) (el : HTMLDivElement)
    (x0 : number) (moves : list number) (x : number) :
  timelineRef st = Some el →
  isNaN (scrollLeft el) = false →
  scrollLeft <$> timelineRef (drag (moves ++ [x]) (handleMouseDown x0 st)) =
    Some (scrollLeft el - (x - x0))%js.
Proof.
  intros Hel Hnan. unfold drag. rewrite fold_left_app. cbn [fold_left].
  fold (drag moves (handleMouseDown x0 st)).
  destruct (drag_keeps_anchor moves (handleMouseDown x0 st) el)
    as (H1 & H2 & H3 & el' & H4); [done..|].
  rewrite (handleMouseMove_dragging x _ el' H1 H4).
  cbn [timelineRef fmap option_fmap option_map scrollLeft].
  rewrite H2, H3. cbn [handleMouseDown startScrollX dragStartX].
  rewrite Hel. cbn [fmap option_fmap option_map].
  by rewrite number_or_0.
Qed.

(** A drag that begins at the scroll offset 100, with the pointer at
    500, and moves the pointer 30 pixels to the left, to 470. *)
Lemma drag_sets_scrollLeft_witness :
  scrollLeft <$>
    timelineRef
      (drag ([] ++ [of_Z 470]) (handleMouseDown (of_Z 500) (mounted 100))) =
  Some (of_Z 130).
Proof.
  rewrite (drag_sets_scrollLeft (mounted 100) (track_at 100) (of_Z 500) []
             (of_Z 470) eq_refl eq_refl).
  f_equal. number_eq.
Defined.

(** The pointer-up ends the drag: later moves do nothing. *)
Lemma drag_after_mouseUp (moves : list number) (st : State) :
  drag moves (handleMouseUp st) = handleMouseUp st.
Proof.
  induction moves as [|m moves IH]; [done|].
  cbn [drag fold_left]. by rewrite handleMouseMove_idle.
Qed.

End TimelineFacts.

(** ** The terminal: zoom, seeking and skipping *)

Module BlueprintTerminalFacts.

Import JS NumberFacts BlueprintTerminal Scenarios.

Section Zoom.

Variable video : VideoData.

Lemma zoomLevel_zoom (c : Timeline.zoom_control) (st : State) :
  zoomLevel (zoom video c st) =
    match c with
    | Timeline.ZoomOutButton =>
        Math_max (of_Q 0.5) (zoomLevel st - of_Q 0.5)%js
    | Timeline.ZoomSlider value0 _ => value0
    | Timeline.ZoomInButton =>
        Math_min (of_Z 5) (zoomLevel st + of_Q 0.5)%js
    | Timeline.ZoomInput parsed => parsed
    end.
Proof. by destruct c. Qed.

(** The two step buttons keep a zoom level of [[0.5, 5.0]] in it. *)
Lemma zoom_buttons_in_range (c : Timeline.zoom_control) (st : State) :
  c = Timeline.ZoomOutButton ∨ c = Timeline.ZoomInButton →
  Design.zoomFactor_ok (zoomLevel st) = true →
  Design.zoomFactor_ok (zoomLevel (zoom video c st)) = true.
Proof.
  intros Hc (q & Hq & Hlo & Hhi)%between_Fin.
  rewrite zoomLevel_zoom. apply between_Fin.
  destruct Hc as [-> | ->]; rewrite Hq; unfold of_Q, of_Z.
  - rewrite sub_Fin, Math_max_Fin. eexists. split; [done|].
    case_bool_decide as H; qc2q; lra.
  - rewrite add_Fin, Math_min_Fin. eexists. split; [done|].
    case_bool_decide as H; qc2q; lra.
Qed.

(** The slider and the number input hand their value over as it is. *)
Lemma zoom_slider_in_range (value0 : number) (rest : list number)
    (st : State) :
  Design.zoomFactor_ok
    (zoomLevel (zoom video (Timeline.ZoomSlider value0 rest) st)) =
  Design.zoomFactor_ok value0.
Proof. done. Qed.

Lemma zoom_input_as_parsed (parsed : number) (st : State) :
  zoomLevel (zoom video (Timeline.ZoomInput parsed) st) = parsed.
Proof. done. Qed.

End Zoom.

(** C4, at the input that breaks it. The number 10 entered in the
    number input of the zoom controls becomes the zoom level, which is
    then outside of [[0.5, 5.0]]; so does NaN, the value of an emptied
    input. *)
Theorem zoom_input_not_clamped :
  Design.zoomFactor_ok (zoomLevel bound) = true ∧
  zoomLevel (zoom mockVideo (Timeline.ZoomInput (of_Z 10)) bound) = of_Z 10 ∧
  Design.zoomFactor_ok
    (zoomLevel (zoom mockVideo (Timeline.ZoomInput (of_Z 10)) bound)) = false ∧
  Design.zoomFactor_ok
    (zoomLevel (zoom mockVideo (Timeline.ZoomInput NaN) bound)) = false.
Proof. repeat split; reflexivity. Qed.

(** *** Seeking *)

Lemma try_seekTo_bound (time : number) (st : State) (v : HTMLVideoElement) :
  videoRef st = Some v → isFinite time = true →
  try_seekTo time st =
    Returns
      {| isPlaying := isPlaying st; currentTime := time;
         selectedElement := selectedElement st; zoomLevel := zoomLevel st;
         timelineScrollX := timelineScrollX st;
         videoRef := Some {| video_currentTime := time; paused := paused v |};
         websocketMessages := websocketMessages st |}.
Proof. unfold try_seekTo, set_currentTime. by intros -> ->. Qed.

Lemma seekTo_bound (time : number) (st : State) (v : HTMLVideoElement) :
  videoRef st = Some v → isFinite time = true →
  seekTo time st =
    {| isPlaying := isPlaying st; currentTime := time;
       selectedElement := selectedElement st; zoomLevel := zoomLevel st;
       timelineScrollX := timelineScrollX st;
       videoRef := Some {| video_currentTime := time; paused := paused v |};
       websocketMessages := websocketMessages st |}.
Proof. intros Hv Hf. unfold seekTo. by rewrite (try_seekTo_bound _ _ v). Qed.

(** A time that is not finite makes the assignment to the media element
    throw: the seek changes nothing. *)
Lemma try_seekTo_not_finite (time : number) (st : State)
    (v : HTMLVideoElement) :
  videoRef st = Some v → isFinite time = false →
  try_seekTo time st = Throws TypeError st.
Proof. unfold try_seekTo, set_currentTime. by intros -> ->. Qed.

(** A seek sets the current time to the time it is given, or changes
    nothing. *)
Lemma seekTo_cases (time : number) (st : State) :
  currentTime (seekTo time st) = time ∨ seekTo time st = st.
Proof.
  unfold seekTo, try_seekTo, set_currentTime.
  destruct (videoRef st) as [v|]; [|by right].
  destruct (isFinite time); [by left | by right].
Qed.

(** C5, as stated, fails: a seek to 200, past the 154 seconds of the
    media, leaves the current time at 200, not at 154, and a seek to -5
    leaves it at -5, not at 0. *)
Lemma seekTo_does_not_clamp :
  currentTime (seekTo (of_Z 200) bound) = of_Z 200 ∧
  currentTime (seekTo (of_Z 200) bound) ≠
    Design.clamp (of_Z 0) (duration mockVideo) (of_Z 200) ∧
  currentTime (seekTo (of_Z (-5)) bound) ≠
    Design.clamp (of_Z 0) (duration mockVideo) (of_Z (-5)).
Proof. repeat split; discriminate. Qed.

(** C5, amended. A seek does not clamp. When a media element is bound
    and [time] is a finite number, [seekTo time] returns after it has
    set the position of the media element to [time] and, in the same
    step, the current time to [time]; both are the time clamped to
    [[0, duration]] when [time] lies in it. When [time] is NaN or an
    infinity, the assignment to the media element throws a TypeError:
    the handler is left before the current time is set, and neither the
    position nor the current time changes. *)
Theorem seekTo_sets_time (video : VideoData) (time : number) (st : State)
    (v : HTMLVideoElement) :
  videoRef st = Some v →
  (isFinite time = true →
   (∃ st', try_seekTo time st = Returns st') ∧
   video_currentTime <$> videoRef (seekTo time st) = Some time ∧
   currentTime (seekTo time st) = time ∧
   (Design.between (of_Z 0) (duration video) time = true →
    currentTime (seekTo time st) =
      Design.clamp (of_Z 0) (duration video) time)) ∧
  (isFinite time = false →
   try_seekTo time st = Throws TypeError st ∧ seekTo time st = st).
Proof.
  intros Hv. split; intros Hf.
  - rewrite (seekTo_bound time st v Hv Hf), (try_seekTo_bound time st v Hv Hf).
    cbn. split; [eauto|]. repeat split. intros Hin. by rewrite clamp_between.
  - unfold seekTo. by rewrite (try_seekTo_not_finite time st v Hv Hf).
Qed.

Lemma seekTo_sets_time_witness :
  (video_currentTime <$> videoRef (seekTo (of_Z 77) bound) = Some (of_Z 77) ∧
   currentTime (seekTo (of_Z 77) bound) = of_Z 77) ∧
  try_seekTo NaN bound = Throws TypeError bound.
Proof.
  split.
  - destruct (seekTo_sets_time mockVideo (of_Z 77) bound (video_at 0) eq_refl)
      as [H _].
    destruct (H eq_refl) as (_ & H1 & H2 & _). by split.
  - destruct (seekTo_sets_time mockVideo NaN bound (video_at 0) eq_refl)
      as [_ H].
    by destruct (H eq_refl).
Defined.

(** Without a media element a seek does nothing. *)
Lemma seekTo_unbound (time : number) (st : State) :
  videoRef st = None → seekTo time st = st.
Proof. unfold seekTo, try_seekTo. by intros ->. Qed.

(** A click on the track of a media that lasts zero seconds scrubs to
    NaN, which the media element refuses: the terminal stays as it
    was. *)
Lemma timelineClick_zero_duration (video : VideoData) (clientX : number)
    (tl : Timeline.State) (el : Timeline.HTMLDivElement) (st : State)
    (v : HTMLVideoElement) :
  duration video = of_Z 0 →
  Timeline.timelineRef tl = Some el → Timeline.isDragging tl = false →
  videoRef st = Some v →
  timelineClick video clientX tl st = st ∧
  try_seekTo NaN st = Throws TypeError st.
Proof.
  intros Hd Hel Hdrag Hv. unfold timelineClick, Timeline.handleTimelineClick.
  rewrite Hel, Hdrag.
  rewrite TimelineFacts.pixelsToTime_zero_duration by done.
  unfold callbacks, callback, handleTimelineScrub, seekTo. cbn [fold_left].
  by rewrite (try_seekTo_not_finite NaN st v Hv).
Qed.

(** *** Skipping *)

Lemma leb_trans (x y z : number) :
  leb x y = true → leb y z = true → leb x z = true.
Proof.
  destruct x as [a| | |], y as [b| | |], z as [c| | |]; try done.
  rewrite !leb_Fin. intros H1%bool_decide_eq_true H2%bool_decide_eq_true.
  apply bool_decide_eq_true. by etrans.
Qed.

(** Ten seconds later is not before the start, and ten seconds earlier
    is not after the end. *)
Lemma leb_add_10 (x : number) :
  leb (of_Z 0) x = true → leb (of_Z 0) (x + of_Z 10)%js = true.
Proof.
  destruct x as [a| | |]; try done. unfold of_Z.
  rewrite add_Fin, !leb_Fin.
  intros H%bool_decide_eq_true. apply bool_decide_eq_true. qc2q. lra.
Qed.

Lemma leb_sub_10 (x hi : number) :
  leb x hi = true → leb (x - of_Z 10)%js hi = true.
Proof.
  destruct x as [a| | |], hi as [b| | |]; try done. unfold of_Z.
  rewrite sub_Fin, !leb_Fin.
  intros H%bool_decide_eq_true. apply bool_decide_eq_true. qc2q. lra.
Qed.

Lemma sub_10 (x : number) : (x - of_Z 10)%js = (x + of_Z (-10))%js.
Proof. unfold sub, of_Z. cbn [neg]. by rewrite <- Z2Qc_inj_opp. Qed.

(** The maximum and the minimum of two ordered numbers. *)
Lemma leb_Math_max (lo x y : number) :
  leb lo y = true → isNaN x = false → leb lo (Math_max x y) = true.
Proof.
  intros Hy Hx. destruct x, y; try done; unfold Math_max;
    match goal with |- context [ltb ?a ?b] => destruct (ltb a b) eqn:E end;
    try done.
  all: destruct lo as [c| | |]; try done.
  all: revert Hy E; rewrite ?leb_Fin, ?ltb_Fin;
    intros Hy%bool_decide_eq_true E%bool_decide_eq_false;
    apply bool_decide_eq_true; apply Qcnot_lt_le in E; by etrans.
Qed.

Lemma Math_max_leb (hi x y : number) :
  leb x hi = true → leb y hi = true → leb (Math_max x y) hi = true.
Proof.
  intros Hx Hy. destruct x, y; try done; unfold Math_max;
    by match goal with |- context [ltb ?a ?b] => destruct (ltb a b) end.
Qed.

Lemma leb_Math_min (lo x y : number) :
  leb lo x = true → leb lo y = true → leb lo (Math_min x y) = true.
Proof.
  intros Hx Hy. destruct x, y; try done; unfold Math_min;
    by match goal with |- context [ltb ?a ?b] => destruct (ltb a b) end.
Qed.

Lemma Math_min_leb (x hi : number) :
  isNaN x = false → leb hi hi = true → leb (Math_min x hi) hi = true.
Proof.
  intros Hx Hhi. destruct x, hi; try done; unfold Math_min;
    match goal with |- context [ltb ?a ?b] => destruct (ltb a b) eqn:E end;
    try done.
  revert E. rewrite leb_Fin, ltb_Fin. intros E%bool_decide_eq_false.
  apply bool_decide_eq_true. by apply Qcnot_lt_le in E.
Qed.

Section Skip.

Variable video : VideoData.

(** C6. From a current time between zero and the duration, the two
    skip buttons seek to the current time plus ten seconds, and minus
    ten seconds, clamped to [[0, duration]]: the time that results is
    not below zero and not above the duration. *)
Theorem skip_clamps (st : State) :
  Design.between (of_Z 0) (duration video) (currentTime st) = true →
  skipForward video st = Design.skip video (of_Z 10) st ∧
  skipBackward st = Design.skip video (of_Z (-10)) st ∧
  Design.between (of_Z 0) (duration video)
    (currentTime (skipForward video st)) = true ∧
  Design.between (of_Z 0) (duration video)
    (currentTime (skipBackward st)) = true.
Proof.
  intros Hin. pose proof Hin as [H0 Hd]%andb_prop.
  assert (Hd0 : leb (of_Z 0) (duration video) = true) by by eapply leb_trans.
  assert (Hdd : leb (duration video) (duration video) = true).
  { by destruct (duration video) as [q| | |]; try done;
      rewrite leb_Fin, bool_decide_eq_true_2. }
  assert (HF : skipForward video st = Design.skip video (of_Z 10) st).
  { unfold skipForward, Design.skip, Design.clamp.
    by rewrite (Math_max_ge _ _ (leb_add_10 _ H0)). }
  assert (HB : skipBackward st = Design.skip video (of_Z (-10)) st).
  { unfold skipBackward, Design.skip, Design.clamp.
    rewrite <- sub_10. rewrite (Math_min_le (Math_max _ _)); [done|].
    apply Math_max_leb; [by apply leb_sub_10 | done]. }
  split; [done|]. split; [done|].
  unfold skipForward, skipBackward. split.
  - destruct (seekTo_cases
                (Math_min (currentTime st + of_Z 10)%js (duration video)) st)
      as [-> | ->]; [|done].
    unfold Design.between. apply andb_true_intro; split.
    + apply leb_Math_min; [by apply leb_add_10 | done].
    + apply Math_min_leb; [|done]. by destruct (currentTime st).
  - destruct (seekTo_cases
                (Math_max (currentTime st - of_Z 10)%js (of_Z 0)) st)
      as [-> | ->]; [|done].
    unfold Design.between. apply andb_true_intro; split.
    + apply leb_Math_max; [done|]. by destruct (currentTime st).
    + apply Math_max_leb; [by apply leb_sub_10 | done].
Qed.

End Skip.

(** A skip forward from 150 on the media of 154 seconds ends at 154, and
    a skip backward from 4 ends at 0. *)
Lemma skip_clamps_witness :
  currentTime (skipForward mockVideo (bound_at 150)) = of_Z 154 ∧
  currentTime (skipBackward (bound_at 4)) = of_Z 0.
Proof.
  destruct (skip_clamps mockVideo (bound_at 150) eq_refl) as (-> & _ & _ & _).
  destruct (skip_clamps mockVideo (bound_at 4) eq_refl) as (_ & -> & _ & _).
  split; number_eq.
Defined.

End BlueprintTerminalFacts.

(** ** The statistics of the dashboard *)

Module DashboardFacts.

Import JS NumberFacts Dashboard Scenarios.

Lemma add_assoc (x y z : number) : (x + (y + z))%js = (x + y + z)%js.
Proof.
  destruct x, y, z; try reflexivity.
  rewrite !add_Fin. f_equal. ring.
Qed.

Lemma add_0_l (x : number) : (of_Z 0 + x)%js = x.
Proof.
  destruct x as [q| | |]; try reflexivity.
  unfold of_Z. rewrite add_Fin, Z2Qc_inj_0. f_equal. ring.
Qed.

(** The [reduce] of the code adds from the left, the sum of the design
    document from the right. *)
Lemma reduce_sum (l : list Blueprint) (acc : number) :
  fold_left (λ acc b, (acc + clarityScore b)%js) l acc =
    (acc + Design.sum (map clarityScore l))%js.
Proof.
  revert acc. induction l as [|b l IH]; intros acc; cbn [fold_left map Design.sum].
  - destruct acc as [q| | |]; try reflexivity.
    unfold of_Z. rewrite add_Fin, Z2Qc_inj_0. f_equal. ring.
  - by rewrite IH, add_assoc.
Qed.

Lemma filter_completed (l : list Blueprint) :
  map clarityScore (filter (λ b, status b = completed) l) =
    Design.completed_scores l.
Proof.
  induction l as [|b l IH]; [done|].
  cbn [Design.completed_scores]. unfold Design.is_status.
  rewrite filter_cons. case_bool_decide; case_decide; try done.
  cbn [map]. by rewrite IH.
Qed.



Lemma averageClarityScore_design (blueprints : option (list Blueprint)) :
  averageClarityScore blueprints =
    Design.averageClarity (validBlueprints blueprints).
Proof.
  unfold averageClarityScore, Design.averageClarity, completedBlueprints.
  rewrite <- filter_completed.
  destruct (filter _ (validBlueprints blueprints)) as [|b l]; [done|].
  cbn [length Nat.ltb Nat.leb map].
  rewrite reduce_sum, add_0_l. unfold Design.mean.
  cbn [map length]. by rewrite length_map.
Qed.


End DashboardFacts.

(** ** UTF-8: a text decodes to itself *)

Module UTF8Facts.
Import UTF8.

Ltac arith := Z.div_mod_to_equations; lia.

Ltac leb_cases :=
  repeat match goal with
         | |- context [?a <=? ?b] =>
             destruct (Z.leb_spec a b); try (exfalso; arith)
         | |- context [?a =? ?b] =>
             destruct (Z.eqb_spec a b); try (exfalso; arith)
         end.

Lemma lead_1 (b : Z) : b ≤ 0x7F → lead b = ([b], idle).
Proof. intros H. unfold lead. by leb_cases. Qed.

Lemma lead_2 (b : Z) :
  0xC2 ≤ b ≤ 0xDF →
  lead b = ([], {| needed := 1; code_point := b - 0xC0;
                   lower := 0x80; upper := 0xBF |}).
Proof. intros H. unfold lead. by leb_cases. Qed.

Lemma lead_3 (b : Z) :
  0xE0 ≤ b ≤ 0xEF →
  lead b = ([], {| needed := 2; code_point := b - 0xE0;
                   lower := if b =? 0xE0 then 0xA0 else 0x80;
                   upper := if b =? 0xED then 0x9F else 0xBF |}).
Proof.
  intros H. unfold lead.
  destruct (Z.leb_spec b 0x7F); [lia|].
  destruct (Z.leb_spec 0xC2 b); [|lia].
  destruct (Z.leb_spec b 0xDF); [lia|].
  destruct (Z.leb_spec 0xE0 b); [|lia].
  destruct (Z.leb_spec b 0xEF); [|lia]. done.
Qed.

Lemma lead_4 (b : Z) :
  0xF0 ≤ b ≤ 0xF4 →
  lead b = ([], {| needed := 3; code_point := b - 0xF0;
                   lower := if b =? 0xF0 then 0x90 else 0x80;
                   upper := if b =? 0xF4 then 0x8F else 0xBF |}).
Proof.
  intros H. unfold lead.
  destruct (Z.leb_spec b 0x7F); [lia|].
  destruct (Z.leb_spec 0xC2 b); [|lia].
  destruct (Z.leb_spec b 0xDF); [lia|].
  destruct (Z.leb_spec 0xE0 b); [|lia].
  destruct (Z.leb_spec b 0xEF); [lia|].
  destruct (Z.leb_spec 0xF0 b); [|lia].
  destruct (Z.leb_spec b 0xF4); [|lia]. done.
Qed.

(** A continuation byte inside the bounds. *)
Lemma step_continue (n : nat) (c lo hi b : Z) :
  lo ≤ b ≤ hi →
  step {| needed := S n; code_point := c; lower := lo; upper := hi |} b =
    match n with
    | O => ([c * 64 + (b - 0x80)], idle)
    | S _ => ([], {| needed := n; code_point := c * 64 + (b - 0x80);
                     lower := 0x80; upper := 0xBF |})
    end.
Proof.
  intros H. unfold step. cbn [needed lower upper code_point].
  destruct (Z.leb_spec lo b); [|lia]. destruct (Z.leb_spec b hi); [|lia].
  done.
Qed.

Lemma decode_encode_code_point (c : Z) (bs : list Z) :
  scalar c →
  decode_from idle (encode_code_point c ++ bs) = c :: decode_from idle bs.
Proof.
  intros Hc. unfold encode_code_point.
  destruct (Z.ltb_spec c 0x80) as [H1|H1].
  { cbn [app decode_from]. change (step idle c) with (lead c).
    rewrite lead_1 by lia. done. }
  destruct (Z.ltb_spec c 0x800) as [H2|H2].
  { cbn [app decode_from]. change (step idle ?b) with (lead b).
    rewrite lead_2 by arith. cbn [fst snd app].
    rewrite step_continue by arith. cbn [fst snd app].
    f_equal. arith. }
  destruct (Z.ltb_spec c 0x10000) as [H3|H3].
  { cbn [app decode_from]. change (step idle ?b) with (lead b).
    rewrite lead_3 by arith. cbn [fst snd app].
    rewrite step_continue.
    2:{ destruct (Z.eqb_spec (0xE0 + c / 4096) 0xE0);
          destruct (Z.eqb_spec (0xE0 + c / 4096) 0xED);
          unfold scalar in Hc; arith. }
    cbn [fst snd app]. rewrite step_continue by arith. cbn [fst snd app].
    f_equal. arith. }
  { cbn [app decode_from]. change (step idle ?b) with (lead b).
    rewrite lead_4 by (unfold scalar in Hc; arith). cbn [fst snd app].
    rewrite step_continue.
    2:{ destruct (Z.eqb_spec (0xF0 + c / 262144) 0xF0);
          destruct (Z.eqb_spec (0xF0 + c / 262144) 0xF4);
          unfold scalar in Hc; arith. }
    cbn [fst snd app]. rewrite step_continue by arith. cbn [fst snd app].
    rewrite step_continue by arith. cbn [fst snd app].
    f_equal. arith. }
Qed.

Lemma decode_encode (cs : list Z) :
  Forall scalar cs → decode (encode cs) = cs.
Proof.
  unfold decode. induction 1 as [|c cs Hc _ IH]; [done|].
  cbn [encode flat_map]. rewrite decode_encode_code_point by done.
  f_equal. exact IH.
Qed.

End UTF8Facts.

(** ** The realtime relay *)

Module RelayFacts.

Import Relay Scenarios.

Section Broadcast.

Variable RawData : Type.
Variable toString : RawData → string.

Lemma lookup_on_message (c : nat) (m : RawData) (wss : WebSocketServer)
    (k : nat) :
  clients (on_message RawData toString c m wss) !! k =
    (λ client,
       if bool_decide (k ≠ c) && bool_decide (readyState client = OPEN)
       then send (toString m) client
       else client) <$> clients wss !! k.
Proof.
  unfold on_message. cbn [clients]. rewrite map_lookup_imap.
  by destruct (clients wss !! k).
Qed.

End Broadcast.

Lemma of_bytes_bytes (s : string) : of_bytes (bytes s) = s.
Proof.
  unfold of_bytes, bytes. rewrite <- list_fmap_compose.
  rewrite <- (string_of_list_ascii_of_string s) at 2. f_equal.
  induction (list_ascii_of_string s) as [|a l IH]; [done|].
  cbn. by rewrite N2Z.id, ascii_N_embedding, IH.
Qed.

(** The text of a well-formed payload is the payload. *)
Lemma Buffer_toString_well_formed (m : Frame) :
  UTF8.well_formed (bytes (payload m)) → Buffer_toString m = payload m.
Proof.
  intros (cs & Hcs & E). unfold Buffer_toString.
  by rewrite E, (UTF8Facts.decode_encode cs Hcs), <- E, of_bytes_bytes.
Qed.

(** C8, as stated, fails: the relay does not hand on the message, but
    its decoding as UTF-8, in a text frame.  The binary frame of the
    four bytes ff fe 00 41, sent by connection 1, reaches connections
    2 and 3 as a text of eight bytes in which U+FFFD (ef bf bd) has
    replaced ff and fe. *)
Lemma message_is_not_verbatim :
  sent <$> clients (three blob) !! 2%nat =
    Some [welcome;
          of_bytes [0xEF; 0xBF; 0xBD; 0xEF; 0xBF; 0xBD; 0x00; 0x41]] ∧
  sent <$> clients (three blob) !! 3%nat =
    Some [welcome;
          of_bytes [0xEF; 0xBF; 0xBD; 0xEF; 0xBF; 0xBD; 0x00; 0x41]] ∧
  Buffer_toString blob ≠ payload blob ∧
  ¬ Design.verbatim blob (Buffer_toString blob).
Proof. repeat split; intros H; discriminate H. Qed.

(** C8, amended. When the relay receives a message from the connection
    [c], it hands the text of the message, its payload decoded as
    UTF-8, to [send] of every other connection that is open, and of no
    other: the sender and the connections that are not open are left
    as they were, and no connection appears or disappears.  A text
    frame, whose payload is well-formed UTF-8, is relayed verbatim.
    With the three connections 1, 2 and 3, a message of connection 1
    is sent to 2 and to 3 and not to 1. *)
Theorem message_is_broadcast (c : nat) (m : Frame) (wss : WebSocketServer) :
  let wss' := on_message Frame Buffer_toString c m wss in
  (∀ k client,
     k ≠ c → clients wss !! k = Some client → readyState client = OPEN →
     clients wss' !! k = Some (send (Buffer_toString m) client)) ∧
  clients wss' !! c = clients wss !! c ∧
  (∀ k client,
     clients wss !! k = Some client → readyState client ≠ OPEN →
     clients wss' !! k = Some client) ∧
  (∀ k, clients wss !! k = None → clients wss' !! k = None) ∧
  (isBinary m = false → UTF8.well_formed (bytes (payload m)) →
   Design.verbatim m (Buffer_toString m)) ∧
  sent <$> clients (three m) !! 1%nat = Some [welcome] ∧
  sent <$> clients (three m) !! 2%nat = Some [welcome; Buffer_toString m] ∧
  sent <$> clients (three m) !! 3%nat = Some [welcome; Buffer_toString m].
Proof.
  cbv zeta. repeat split.
  - intros k client Hk Hcl Hopen. rewrite lookup_on_message, Hcl. cbn.
    by rewrite !bool_decide_eq_true_2.
  - rewrite lookup_on_message. destruct (clients wss !! c) as [cl|]; [|done].
    cbn. by rewrite bool_decide_eq_false_2 by (intros H; by apply H).
  - intros k client Hcl Hopen. rewrite lookup_on_message, Hcl. cbn.
    by rewrite (bool_decide_eq_false_2 (readyState client = OPEN)), andb_false_r.
  - intros k Hk. by rewrite lookup_on_message, Hk.
  - intros Hb Hw. unfold Design.verbatim, text_frame.
    rewrite (Buffer_toString_well_formed m Hw). destruct m. cbn in Hb.
    by subst.
Qed.

(** The text frame of the word "play", sent by connection 1, is relayed
    as it is to the two other connections. *)
Lemma message_is_broadcast_witness :
  Design.verbatim play (Buffer_toString play) ∧
  sent <$> clients (three play) !! 1%nat = Some [welcome] ∧
  sent <$> clients (three play) !! 2%nat = Some [welcome; "play"] ∧
  sent <$> clients (three play) !! 3%nat = Some [welcome; "play"].
Proof.
  destruct (message_is_broadcast 1 play {| clients := ∅ |})
    as (_ & _ & _ & _ & H & H1 & H2 & H3).
  split; [|by split].
  apply H; [reflexivity|].
  exists [112; 108; 97; 121]. split; [|reflexivity].
  repeat constructor; unfold UTF8.scalar; lia.
Defined.

End RelayFacts.

(** ** The properties panel *)

Module PropertiesPanelFacts.

Import JS NumberFacts PropertiesPanel Scenarios.

Lemma append_nil_r (s : string) : s +:+ "" = s.
Proof.
  induction s as [|c s IH]; [done|].
  change (String c (s +:+ "") = String c s). by f_equal.
Qed.



(** C10. The two fallbacks of the panel differ at zero. For a
    narrative beat or a clarity insight whose data has the score 0, the
    line of the score shows "N/A", and is the line of the same data
    without a score; for an audio event whose data has the volume 0,
    the line of the volume shows "0%", where the same data without a
    volume shows "N/A". *)
Theorem score_and_volume_at_zero (sel : SelectedElement)
    (o : gmap string value) :
  data sel = Some o →
  (∀ t, t = narrative ∨ t = clarity →
     ∃ first, elementSpecificData sel t = Some [first; scoreLine (Some o)]) ∧
  (∃ first, elementSpecificData sel audio = Some [first; volumeLine (Some o)]) ∧
  (o !! "score" = Some (VNumber (of_Z 0)) →
     textContent (scoreLine (Some o)) = "Score: N/A" ∧
     scoreLine (Some o) = scoreLine (Some (delete "score" o))) ∧
  (o !! "volume" = Some (VNumber (of_Z 0)) →
     textContent (volumeLine (Some o)) = "Volume: 0%" ∧
     textContent (volumeLine (Some (delete "volume" o))) = "Volume: N/A").
Proof.
  intros Hd. split; [|split; [|split]].
  - intros t [-> | ->]; unfold elementSpecificData; rewrite Hd; eauto.
  - unfold elementSpecificData. rewrite Hd. eauto.
  - intros Hs. unfold scoreLine, get_opt, get.
    by rewrite Hs, lookup_delete_eq.
  - intros Hv. unfold volumeLine, get_opt, get.
    by rewrite Hv, lookup_delete_eq.
Qed.

Lemma score_and_volume_at_zero_witness :
  textContent (scoreLine (Some score_0)) = "Score: N/A" ∧
  textContent (volumeLine (Some volume_0)) = "Volume: 0%".
Proof.
  split.
  - apply (score_and_volume_at_zero (selected narrative score_0) score_0
             eq_refl).
    reflexivity.
  - apply (score_and_volume_at_zero (selected audio volume_0) volume_0
             eq_refl).
    reflexivity.
Defined.

End PropertiesPanelFacts.

(** ** The timeline: geometry, lanes and pointer handling *)

Module TimelineGeometry.

Import Binary64 JS NumberFacts Binary64Facts Timeline Scenarios Notions.

Lemma div_nonzero (a b : Qc) :
  b ≠ 0%Qc → (Fin a / Fin b)%js = Fin (a / b)%Qc.
Proof.
  intros Hb. unfold div. destruct (Qcsgn b) eqn:E; try done.
  by apply Qcsgn_Eq in E.
Qed.

Lemma fifty_nonzero (z : Qc) : z ≠ 0%Qc → (Qc_of_Z 50 * z)%Qc ≠ 0%Qc.
Proof.
  intros Hz H. apply Qcmult_integral in H as [H | H]; [discriminate H | done].
Qed.

(** For a duration that is not zero the duration cancels in a pixel
    offset, and for a zoom level that is not zero either it cancels in
    the time of a pixel offset. *)
Lemma timeToPixels_closed (props : TimelineProps) (d z t : Qc) :
  duration props = Fin d → zoomLevel props = Fin z → d ≠ 0%Qc →
  timeToPixels props (Fin t) = Fin (t * Qc_of_Z 50 * z)%Qc.
Proof.
  intros Hd Hz Hd0. unfold timeToPixels, totalWidth, PIXELS_PER_SECOND_BASE, of_Z.
  rewrite Hd, Hz, (div_nonzero t d Hd0). cbn [mul]. f_equal. by field.
Qed.

Lemma pixelsToTime_closed (props : TimelineProps) (d z x : Qc) :
  duration props = Fin d → zoomLevel props = Fin z →
  d ≠ 0%Qc → z ≠ 0%Qc →
  pixelsToTime props (Fin x) = Fin (x / (Qc_of_Z 50 * z))%Qc.
Proof.
  intros Hd Hz Hd0 Hz0.
  unfold pixelsToTime, totalWidth, PIXELS_PER_SECOND_BASE, of_Z.
  rewrite Hd, Hz. cbn [mul]. rewrite div_nonzero.
  - cbn [mul]. f_equal. field. repeat split; try done; discriminate.
  - intros H. apply Qcmult_integral in H as [H | H]; [|done].
    apply Qcmult_integral in H as [H | H]; [done | discriminate H].
Qed.

(** X1. In double precision the duration cancels out of the geometry
    up to rounding.  For a duration, a zoom level [z] and a time [t]
    between 2^-100 and 2^100, the pixel offset
    [(t / duration) * totalWidth], which places the playback indicator
    at the current time and gives an element its left edge and its
    width, is a finite number within five unit roundoffs of
    [t * 50 * z]; at the time zero it is zero. *)
Theorem geometry_without_duration (props : TimelineProps) (d z t : Qc) :
  duration props = Fin d → zoomLevel props = Fin z →
  (pow2 (-100) <= d <= pow2 100)%Q →
  (pow2 (-100) <= z <= pow2 100)%Q →
  t = 0%Qc ∨ (pow2 (-100) <= t <= pow2 100)%Q →
  ∃ x : Qc,
    Binary64.timeToPixels props (Fin t) = Fin x ∧
    (currentTime props = Fin t → Binary64.indicatorPosition props = Fin x) ∧
    (Qabs (x - t * Qc_of_Z 50 * z)
     <= 5 * unit_roundoff * (t * Qc_of_Z 50 * z))%Q.
Proof.
  intros Hd Hz Hdr Hzr Ht.
  assert (H : ∃ x : Qc,
    Binary64.timeToPixels props (Fin t) = Fin x ∧
    (Qabs (x - t * Qc_of_Z 50 * z)
     <= 5 * unit_roundoff * (t * Qc_of_Z 50 * z))%Q).
  2:{ destruct H as (x & Hx & Hb). exists x. split; [done|]. split; [|done].
      unfold Binary64.indicatorPosition. by intros ->. }
  destruct (TimelineFacts.totalWidth_double props d z Hd Hz Hdr Hzr)
    as (w & Hw & Hw1 & Hw2 & Aw).
  destruct Hdr as [Hd1 Hd2]. destruct Hzr as [Hz1 Hz2].
  pose proof (pow2_pos (-100)) as Hp. pose proof (pow2_pos (-202)) as Hp'.
  assert (Hd0 : (0 < d)%Q) by lra.
  unfold Binary64.timeToPixels. rewrite Hw, Hd.
  destruct Ht as [-> | [Ht1 Ht2]].
  - exists 0%Qc. split; [|discriminate]. rewrite <- Z2Qc_inj_0.
    change (Fin (Qc_of_Z 0)) with (of_Z 0).
    by rewrite (div_zero d), mul_zero.
  - destruct (pow2_div_range _ _ _ _ _ _ Ht1 Ht2 Hd1 Hd2) as [H1 H2].
    destruct (div_Fin t d (-100 - 100) (100 - -100))
      as (q & -> & Aq & Hq & Hq'); [done..|].
    destruct (pow2_mul_range _ _ _ _ _ _ Hq Hq' Hw1 Hw2) as [H3 H4].
    destruct (mul_Fin q w (-100 - 100 - 1 + -202) (100 - -100 + 1 + 208))
      as (x & -> & Ax & _); [done..|].
    exists x. split; [done|].
    destruct unit_roundoff_small as [Hu0 Hu].
    assert (H50 : (0 < Qc_of_Z 50)%Q) by reflexivity.
    assert (Hlo : (0 <= 1 - unit_roundoff)%Q) by lra.
    assert (Hhi : (0 <= 1 + unit_roundoff)%Q) by lra.
    assert (Htd : (0 <= t / d)%Q)
      by (pose proof (pow2_pos (-100 - 100)); lra).
    assert (Hdz : (0 <= d * Qc_of_Z 50 * z)%Q).
    { apply Qmult_le_0_compat; [apply Qmult_le_0_compat|]; lra. }
    assert (A := within_mul2 _ _ _ _ _ _ _ _ Htd Hdz Hlo
                   (Qmult_le_0_compat _ _ Hlo Hlo) Aq Aw).
    apply (within_eq _ _ _ (t * Qc_of_Z 50 * z)) in A; [|field; lra].
    assert (B := within_trans _ _ _ _ _ _ _ Hlo Hhi A Ax).
    refine (few_roundings _ _ _ _ _ _ _ B);
      [apply Qle_bool_iff; vm_compute; reflexivity.. |].
    apply Qmult_le_0_compat; [apply Qmult_le_0_compat|]; lra.
Qed.

Lemma geometry_without_duration_witness :
  ∃ x : Qc,
    Binary64.timeToPixels props_154 (of_Z 10) = Fin x ∧
    (currentTime props_154 = of_Z 10 →
     Binary64.indicatorPosition props_154 = Fin x) ∧
    (Qabs (x - Qc_of_Z 10 * Qc_of_Z 50 * Qc_of_Z 1)
     <= 5 * unit_roundoff * (Qc_of_Z 10 * Qc_of_Z 50 * Qc_of_Z 1))%Q.
Proof.
  apply (geometry_without_duration props_154 (Qc_of_Z 154) (Qc_of_Z 1)
           (Qc_of_Z 10)); try reflexivity.
  - split; discriminate.
  - split; discriminate.
  - right. split; discriminate.
Defined.

(** The first narrative beat, ten seconds long, is given the width
    500 - 2^-44 at 154 seconds and zoom 1, which prints as
    499.99999999999994. *)
Example width_of_ten_seconds :
  Binary64.timeToPixels props_154 (of_Z 10) = Fin (Q2Qc (500 - pow2 (-44))).
Proof. apply Fin_eq_bool. vm_compute. reflexivity. Qed.



(** *** Lanes *)

Lemma track_name_inj (t u : track) : track_name t = track_name u → t = u.
Proof. by destruct t, u. Qed.

Lemma groupByType_snoc (data : list TimelineElement) (el : TimelineElement) :
  groupByType (data ++ [el]) =
    <[track_name (type el) :=
        default [] (groupByType data !! track_name (type el)) ++ [el]]>
      (groupByType data).
Proof. unfold groupByType. by rewrite fold_left_app. Qed.

Lemma groupedData_groupByType : groupedData = groupByType mockTimelineData.
Proof. reflexivity. Qed.

Lemma lookup_groupByType (data : list TimelineElement) (t : track) :
  groupByType data !! track_name t =
    match filter (λ el, type el = t) data with
    | [] => None
    | l => Some l
    end.
Proof.
  induction data as [|el data IH] using rev_ind; [done|].
  rewrite groupByType_snoc, filter_app, filter_cons, filter_nil.
  case_decide as Ht.
  - rewrite Ht, lookup_insert_eq, IH.
    by destruct (filter _ data).
  - rewrite lookup_insert_ne by (intros H%track_name_inj; done).
    by rewrite IH, app_nil_r.
Qed.

Lemma length_by_track (data : list TimelineElement) :
  (length (filter (λ el, type el = narrative) data) +
   length (filter (λ el, type el = visual) data) +
   length (filter (λ el, type el = audio) data) +
   length (filter (λ el, type el = clarity) data) = length data)%nat.
Proof.
  induction data as [|el data IH]; [done|].
  rewrite !filter_cons. destruct (type el); repeat case_decide; try done;
    cbn [length]; lia.
Qed.

(** X3. Whatever the elements are, the four lanes are rendered in the
    order narrative, visual, audio, clarity; the lane of a track holds
    the elements of that track, all of them, in the order of the data,
    and is empty, not left out, for a track without an element; no
    element is lost or shown twice. *)
Theorem lanes_partition (data : list TimelineElement) :
  lanes data =
    [ (narrative, filter (λ el, type el = narrative) data);
      (visual, filter (λ el, type el = visual) data);
      (audio, filter (λ el, type el = audio) data);
      (clarity, filter (λ el, type el = clarity) data) ] ∧
  (∀ t, groupByType data !! track_name t = None ↔
        filter (λ el, type el = t) data = []) ∧
  (length (lane data narrative) + length (lane data visual) +
   length (lane data audio) + length (lane data clarity) = length data)%nat.
Proof.
  assert (Hlane : ∀ t, lane data t = filter (λ el, type el = t) data).
  { intros t. unfold lane. rewrite lookup_groupByType.
    by destruct (filter _ data). }
  split; [|split].
  - unfold lanes, trackOrder. cbn [map]. by rewrite !Hlane.
  - intros t. rewrite lookup_groupByType. by destruct (filter _ data).
  - rewrite !Hlane. apply length_by_track.
Qed.

End TimelineGeometry.

(** ** The timeline: pointer handling *)

Module TimelinePointer.

Import JS NumberFacts Timeline Scenarios Notions.




(** Without a mounted track neither a pointer move nor a click nor a
    scroll event does anything. *)
Lemma unmounted_is_inert (props : TimelineProps) (st : State)
    (clientX : number) :
  timelineRef st = None →
  handleMouseMove clientX st = st ∧
  handleTimelineClick props clientX st = [] ∧
  handleScroll st = [] ∧
  syncScroll props st = st.
Proof.
  intros H. unfold handleMouseMove, handleTimelineClick, handleScroll, syncScroll.
  rewrite H. by destruct (isDragging st).
Qed.

End TimelinePointer.

(** ** The terminal: what its actions keep *)

Module TerminalInvariants.

Import JS NumberFacts BlueprintTerminal Scenarios Notions.

(** A seek touches the position of the media element and the current
    time, and nothing else. *)
Lemma seekTo_frame (time : number) (st : State) :
  isPlaying (seekTo time st) = isPlaying st ∧
  selectedElement (seekTo time st) = selectedElement st ∧
  zoomLevel (seekTo time st) = zoomLevel st ∧
  timelineScrollX (seekTo time st) = timelineScrollX st ∧
  websocketMessages (seekTo time st) = websocketMessages st ∧
  paused <$> videoRef (seekTo time st) = paused <$> videoRef st.
Proof.
  unfold seekTo, try_seekTo, set_currentTime.
  destruct (videoRef st) as [v|] eqn:E; [destruct (isFinite time)|];
    cbn; rewrite ?E; auto 10.
Qed.

Section Actions.

Variable video : VideoData.

Lemma zoomLevel_act (a : action) (st : State) :
  zoomLevel (act video st a) =
    match a with
    | Zoom c => zoomLevel (zoom video c st)
    | FromTimeline (Timeline.onZoomChange z) => z
    | _ => zoomLevel st
    end.
Proof.
  destruct a as [[] | [] | | [] |]; try reflexivity; cbn [act click callback];
    unfold skipBackward, skipForward, togglePlayback, handleTimelineScrub,
      handleTimeUpdate;
    try apply seekTo_frame; by destruct (videoRef st).
Qed.

(** X5. The zoom level stays in [[0.5, 5.0]] under every sequence of
    actions on the terminal in which the number input of the zoom
    controls is not used and the slider hands over levels of its range:
    the two step buttons clamp, and every other action leaves the zoom
    level alone. *)
Theorem zoom_stays_in_range (l : list action) (st : State) :
  Design.zoomFactor_ok (zoomLevel st) = true →
  forallb tame l = true →
  Design.zoomFactor_ok (zoomLevel (acts video l st)) = true.
Proof.
  revert st. induction l as [|a l IH]; intros st Hst Hl; [done|].
  cbn [forallb] in Hl. apply andb_prop in Hl as [Ha Hl].
  cbn [acts fold_left]. apply IH; [|done].
  rewrite zoomLevel_act.
  destruct a as [b | e | c | e |]; try done.
  - by destruct e.
  - destruct c as [| v rest | | v]; try done.
    + apply BlueprintTerminalFacts.zoom_buttons_in_range; auto.
    + apply BlueprintTerminalFacts.zoom_buttons_in_range; auto.
Qed.

End Actions.

Lemma zoom_stays_in_range_witness :
  Design.zoomFactor_ok
    (zoomLevel
       (acts mockVideo
          [Zoom Timeline.ZoomInButton; Press SkipForward;
           Zoom (Timeline.ZoomSlider (of_Q 4.9) []); Zoom Timeline.ZoomInButton;
           Socket ws_onopen; Zoom Timeline.ZoomOutButton]
          bound)) = true.
Proof.
  apply (zoom_stays_in_range mockVideo); reflexivity.
Defined.

(** The zoom level after a step button, in double precision. *)
Lemma zoomLevel_zoom_in (video : VideoData) (st : State) :
  zoomLevel (Binary64.zoom video Timeline.ZoomInButton st) =
    Math_min (of_Z 5) (zoomLevel st + of_Q 0.5)%double.
Proof. reflexivity. Qed.

Lemma zoomLevel_zoom_out (video : VideoData) (st : State) :
  zoomLevel (Binary64.zoom video Timeline.ZoomOutButton st) =
    Math_max (of_Q 0.5) (zoomLevel st - of_Q 0.5)%double.
Proof. reflexivity. Qed.

(** X6. In double precision, on the zoom levels that the step buttons
    produce, the multiples [k / 2] of one half, the two buttons undo
    each other inside the range: from a level between 0.5 and 4.5 a
    step in followed by a step out gives the level back, and so does,
    from a level between 1 and 5, a step out followed by a step in. *)
Theorem zoom_steps_undo (video : VideoData) (st : State) (k : Z) :
  zoomLevel st = of_Q (k # 2) →
  (1 ≤ k ≤ 9 →
   zoomLevel
     (Binary64.zoom video Timeline.ZoomOutButton
        (Binary64.zoom video Timeline.ZoomInButton st)) = of_Q (k # 2)) ∧
  (2 ≤ k ≤ 10 →
   zoomLevel
     (Binary64.zoom video Timeline.ZoomInButton
        (Binary64.zoom video Timeline.ZoomOutButton st)) = of_Q (k # 2)).
Proof.
  intros Hz. rewrite zoomLevel_zoom_out, zoomLevel_zoom_in.
  rewrite zoomLevel_zoom_in, zoomLevel_zoom_out, Hz.
  split; intros Hk.
  - assert (H : k = 1 ∨ k = 2 ∨ k = 3 ∨ k = 4 ∨ k = 5 ∨ k = 6 ∨ k = 7
                ∨ k = 8 ∨ k = 9) by lia.
    decompose [or] H; subst k; apply Fin_eq_bool; vm_compute; reflexivity.
  - assert (H : k = 2 ∨ k = 3 ∨ k = 4 ∨ k = 5 ∨ k = 6 ∨ k = 7 ∨ k = 8
                ∨ k = 9 ∨ k = 10) by lia.
    decompose [or] H; subst k; apply Fin_eq_bool; vm_compute; reflexivity.
Qed.

Lemma zoom_steps_undo_witness :
  zoomLevel
    (Binary64.zoom mockVideo Timeline.ZoomOutButton
       (Binary64.zoom mockVideo Timeline.ZoomInButton bound)) = of_Q (2 # 2) ∧
  zoomLevel
    (Binary64.zoom mockVideo Timeline.ZoomInButton
       (Binary64.zoom mockVideo Timeline.ZoomOutButton bound)) = of_Q (2 # 2).
Proof.
  destruct (zoom_steps_undo mockVideo bound 2) as [H1 H2]; [number_eq|].
  split; [apply H1 | apply H2]; lia.
Defined.

(** On other levels the steps need not undo each other: from the
    double next to 0.6, a step in and a step out end one unit roundoff
    higher, at the double that prints as 0.6000000000000001. *)
Example zoom_steps_from_06 :
  ∃ z : Qc,
    Binary64.round (of_Q 0.6) = Fin z ∧
    zoomLevel
      (Binary64.zoom mockVideo Timeline.ZoomOutButton
         (Binary64.zoom mockVideo Timeline.ZoomInButton
            (setZoomLevel (Fin z) bound))) =
      Fin (Q2Qc (z + Binary64.pow2 (-53))).
Proof.
  eexists. split; [reflexivity|].
  rewrite zoomLevel_zoom_out, zoomLevel_zoom_in.
  apply Fin_eq_bool. vm_compute. reflexivity.
Qed.

(** *** Play state *)

Lemma mirrors_seekTo (time : number) (st : State) :
  mirrors (seekTo time st) = mirrors st.
Proof.
  unfold mirrors, seekTo, try_seekTo, set_currentTime.
  destruct (videoRef st) as [v|] eqn:E; [destruct (isFinite time)|];
    cbn; by rewrite ?E.
Qed.

Lemma mirrors_togglePlayback (st : State) :
  mirrors st = true → mirrors (togglePlayback st) = true.
Proof.
  unfold mirrors, togglePlayback.
  destruct (videoRef st) as [v|] eqn:E; [|by rewrite E].
  by destruct (isPlaying st).
Qed.

(** X7. The play state mirrors the media element under every sequence
    of actions: after it, the media element was last told to pause
    exactly when the terminal shows that it is not playing; and a
    terminal without a media element never shows that it is playing. *)
Theorem play_state_mirrors_element (video : VideoData) (l : list action)
    (st : State) :
  mirrors st = true → mirrors (acts video l st) = true.
Proof.
  revert st. induction l as [|a l IH]; intros st Hst; [done|].
  cbn [acts fold_left]. apply IH.
  destruct a as [[] | [] | [] | [] |]; cbn [act click callback zoom callbacks
    Timeline.zoomControl Timeline.handleZoomChange fold_left ws_handle];
    unfold skipBackward, skipForward, handleTimelineScrub;
    rewrite ?mirrors_seekTo; try done.
  - by apply mirrors_togglePlayback.
  - unfold handleTimeUpdate. by destruct (videoRef st) eqn:E.
Qed.

Lemma play_state_mirrors_element_witness :
  mirrors
    (acts mockVideo
       [Press PlayPause; Press SkipForward; TimeUpdate; Press PlayPause;
        Press PlayPause]
       bound) = true.
Proof. apply (play_state_mirrors_element mockVideo). reflexivity. Defined.

(** *** The log of the realtime channel *)

Lemma websocketMessages_act (video : VideoData) (a : action) (st : State) :
  websocketMessages (act video st a) =
    websocketMessages st ++ socket_lines [a].
Proof.
  destruct a as [[] | [] | [] | [] |];
    cbn [act click callback zoom callbacks Timeline.zoomControl
           Timeline.handleZoomChange fold_left ws_handle socket_lines omap
           list_omap];
    unfold skipBackward, skipForward, handleTimelineScrub, togglePlayback,
      handleTimeUpdate;
    rewrite ?(proj1 (proj2 (proj2 (proj2 (proj2 (seekTo_frame _ _))))));
    try (by destruct (videoRef st); cbn; rewrite app_nil_r);
    by cbn; rewrite ?app_nil_r.
Qed.

(** X8. The log of the realtime channel only grows, by one line for
    each event of the channel, in the order of the events: the line of
    a message is the text received after the prefix "[WebSocket] ". No
    other action of the terminal writes to the log, and an event of the
    channel changes neither the playback nor the zoom level nor the
    selection. *)
Theorem log_is_appended (video : VideoData) (l : list action) (st : State) :
  websocketMessages (acts video l st) =
    websocketMessages st ++ socket_lines l ∧
  ∀ e,
    let st' := act video st (Socket e) in
    isPlaying st' = isPlaying st ∧ currentTime st' = currentTime st ∧
    videoRef st' = videoRef st ∧ zoomLevel st' = zoomLevel st ∧
    selectedElement st' = selectedElement st ∧
    websocketMessages st' = websocketMessages st ++ [ws_line e].
Proof.
  split.
  - revert st. induction l as [|a l IH]; intros st.
    + cbn. by rewrite app_nil_r.
    + cbn [acts fold_left]. fold (acts video l (act video st a)).
      rewrite IH, websocketMessages_act, <- app_assoc. f_equal.
      unfold socket_lines. cbn [omap list_omap].
      by destruct a as [| | | e |].
  - intros e. by destruct e.
Qed.

End TerminalInvariants.

(** ** The terminal: skipping, clicking and selecting *)

Module TerminalSeeking.

Import JS NumberFacts BlueprintTerminal Scenarios Notions.

Section Skips.

Variable video : VideoData.
Variable d : Qc.
Hypothesis duration_finite : duration video = Fin d.

(** One skip forward in double precision, from a whole number of
    seconds and from the end of the media. *)
Lemma skipForward_whole (st : State) (v : HTMLVideoElement) (k : Z) :
  videoRef st = Some v → currentTime st = of_Z k → 0 ≤ k ≤ 2 ^ 52 →
  ∃ v', videoRef (Binary64.skipForward video st) = Some v' ∧
        currentTime (Binary64.skipForward video st) =
          Math_min (of_Z (k + 10)) (Fin d).
Proof.
  intros Hv Hc Hk. unfold Binary64.skipForward.
  rewrite Hc, duration_finite. unfold Binary64.add, of_Z. rewrite add_Fin.
  rewrite <- Z2Qc_inj_add. fold (of_Z (k + 10)).
  rewrite Binary64Facts.round_Z by lia. unfold of_Z. rewrite Math_min_Fin.
  rewrite (BlueprintTerminalFacts.seekTo_bound (Fin _) st v Hv eq_refl).
  cbn. eauto.
Qed.

Lemma skipForward_end (st : State) (v : HTMLVideoElement) :
  videoRef st = Some v → currentTime st = Fin d →
  (0 ≤ d)%Qc → (d ≤ Qc_of_Z (2 ^ 52))%Qc →
  ∃ v', videoRef (Binary64.skipForward video st) = Some v' ∧
        currentTime (Binary64.skipForward video st) = Fin d.
Proof.
  intros Hv Hc Hd0 Hd. unfold Binary64.skipForward.
  rewrite Hc, duration_finite. unfold Binary64.add, of_Z. rewrite add_Fin.
  change (0 <= d)%Q in Hd0. change (d <= inject_Z (2 ^ 52))%Q in Hd.
  assert (E : ((d + Qc_of_Z 10)%Qc == d + 10)%Q) by apply Qred_correct.
  destruct (Binary64Facts.round_Fin (d + Qc_of_Z 10)%Qc 3 53)
    as (r & -> & [Hr _] & _); [done | done | | |].
  { rewrite E. change (Binary64.pow2 3) with 8%Q. lra. }
  { rewrite E. rewrite <- (Binary64Facts.pow2_Z 53) by done.
    change (inject_Z (2 ^ 52)) with (4503599627370496 # 1)%Q in Hd.
    change (inject_Z (2 ^ 53)) with (9007199254740992 # 1)%Q. lra. }
  rewrite E in Hr.
  change Binary64.unit_roundoff with (1 # 9007199254740992)%Q in Hr.
  change (inject_Z (2 ^ 52)) with (4503599627370496 # 1)%Q in Hd.
  assert (Hdr : (d ≤ r)%Qc) by (change (d <= r)%Q; lra).
  rewrite Math_min_Fin.
  replace (if bool_decide (d < r)%Qc then d else r) with d.
  2:{ case_bool_decide as H; [done|].
      apply Qcle_antisym; [done | by apply Qcnot_lt_le]. }
  rewrite (BlueprintTerminalFacts.seekTo_bound (Fin _) st v Hv eq_refl).
  cbn. eauto.
Qed.

Lemma skipBackward_whole (st : State) (v : HTMLVideoElement) (k : Z) :
  videoRef st = Some v → currentTime st = of_Z k → 0 ≤ k ≤ 2 ^ 52 →
  ∃ v', videoRef (Binary64.skipBackward st) = Some v' ∧
        currentTime (Binary64.skipBackward st) = of_Z (Z.max (k - 10) 0).
Proof.
  intros Hv Hc Hk. unfold Binary64.skipBackward.
  rewrite Hc. unfold Binary64.sub, of_Z. rewrite sub_Fin.
  rewrite <- Z2Qc_inj_sub. fold (of_Z (k - 10)).
  rewrite Binary64Facts.round_Z by lia. unfold of_Z. rewrite Math_max_Fin.
  rewrite (BlueprintTerminalFacts.seekTo_bound (Fin _) st v Hv eq_refl).
  cbn. eexists. split; [done|]. f_equal.
  case_bool_decide as H.
  - apply (proj2 (Z2Qc_inj_lt _ _)) in H. f_equal. lia.
  - apply Qcle_ngt, (proj2 (Z2Qc_inj_le _ _)) in H. f_equal. lia.
Qed.

Lemma Math_min_whole (k : Z) :
  Math_min (of_Z k) (Fin d) =
    if bool_decide (d < Qc_of_Z k)%Qc then Fin d else of_Z k.
Proof. unfold of_Z. rewrite Math_min_Fin. by case_bool_decide. Qed.

Lemma forward_skips (n : nat) (st : State) (v : HTMLVideoElement) (k : Z) :
  videoRef st = Some v → currentTime st = of_Z k →
  0 ≤ k → (Qc_of_Z k ≤ d)%Qc → (d ≤ Qc_of_Z (2 ^ 52))%Qc →
  ∃ v', videoRef (Nat.iter n (Binary64.skipForward video) st) = Some v' ∧
        currentTime (Nat.iter n (Binary64.skipForward video) st) =
          Math_min (of_Z (k + 10 * Z.of_nat n)) (Fin d).
Proof.
  intros Hv Hc Hk Hkd Hd.
  assert (Hd0 : (0 ≤ d)%Qc).
  { etrans; [|exact Hkd]. rewrite <- Z2Qc_inj_0.
    by apply (proj1 (Z2Qc_inj_le 0 k)). }
  induction n as [|n (v' & Hv' & IH)].
  - exists v. split; [done|]. change (Nat.iter 0 ?f st) with st. rewrite Hc.
    replace (k + 10 * Z.of_nat 0) with k by lia.
    rewrite Math_min_whole. by rewrite bool_decide_eq_false_2 by by apply Qcle_not_lt.
  - rewrite Nat.iter_succ. rewrite Math_min_whole in IH.
    replace (k + 10 * Z.of_nat (S n)) with (k + 10 * Z.of_nat n + 10) by lia.
    case_bool_decide as Hend.
    + destruct (skipForward_end _ v' Hv' IH Hd0 Hd) as (v'' & Hv'' & ->).
      exists v''. split; [done|]. rewrite Math_min_whole.
      rewrite bool_decide_eq_true_2; [done|].
      eapply Qclt_le_trans; [exact Hend|].
      apply (proj1 (Z2Qc_inj_le _ _)). lia.
    + apply Qcle_ngt in Hend.
      assert (Hle : k + 10 * Z.of_nat n ≤ 2 ^ 52).
      { apply (proj2 (Z2Qc_inj_le _ _)). by etrans. }
      destruct (skipForward_whole _ v' _ Hv' IH) as (v'' & Hv'' & ->); [lia|].
      by exists v''.
Qed.

Lemma backward_skips (n : nat) (st : State) (v : HTMLVideoElement) (k : Z) :
  videoRef st = Some v → currentTime st = of_Z k → 0 ≤ k ≤ 2 ^ 52 →
  ∃ v', videoRef (Nat.iter n Binary64.skipBackward st) = Some v' ∧
        currentTime (Nat.iter n Binary64.skipBackward st) =
          of_Z (Z.max (k - 10 * Z.of_nat n) 0).
Proof.
  intros Hv Hc Hk. induction n as [|n (v' & Hv' & IH)].
  - exists v. split; [done|]. change (Nat.iter 0 ?f st) with st. rewrite Hc.
    apply (f_equal of_Z). lia.
  - rewrite Nat.iter_succ.
    destruct (skipBackward_whole _ v' _ Hv' IH) as (v'' & Hv'' & ->); [lia|].
    exists v''. split; [done|]. apply (f_equal of_Z). lia.
Qed.

(** X9. In double precision, from a current time that is a whole
    number [k] of seconds between zero and the duration [d], with a
    duration of at most 2^52 seconds, [n] presses on the skip-forward
    button end at the smaller of [k + 10 n] and [d], and [n] presses on
    the skip-backward button at the larger of [k - 10 n] and zero: the
    skips add up until the end, or the start, of the media is reached,
    and stay there. *)
Theorem skips_add_up (n : nat) (st : State) (v : HTMLVideoElement) (k : Z) :
  videoRef st = Some v → currentTime st = of_Z k →
  0 ≤ k → (Qc_of_Z k ≤ d)%Qc → (d ≤ Qc_of_Z (2 ^ 52))%Qc →
  currentTime (Nat.iter n (Binary64.skipForward video) st) =
    Math_min (of_Z (k + 10 * Z.of_nat n)) (Fin d) ∧
  currentTime (Nat.iter n Binary64.skipBackward st) =
    of_Z (Z.max (k - 10 * Z.of_nat n) 0).
Proof.
  intros Hv Hc Hk Hkd Hd. split.
  - by destruct (forward_skips n st v k) as (_ & _ & ->).
  - destruct (backward_skips n st v k) as (_ & _ & ->); [done..| |done].
    split; [done|]. apply (proj2 (Z2Qc_inj_le _ _)). by etrans.
Qed.

(** X10. In double precision, away from the two ends a skip forward
    and a skip backward undo each other on the whole seconds: from a
    current time that is a whole number [k] of seconds, with a duration
    of at most 2^52 seconds, forward then backward gives the time back
    when [0 <= k] and [k + 10 <= d], and backward then forward does
    when [10 <= k <= d]. *)
Theorem skips_undo (st : State) (v : HTMLVideoElement) (k : Z) :
  videoRef st = Some v → currentTime st = of_Z k →
  (d ≤ Qc_of_Z (2 ^ 52))%Qc →
  (0 ≤ k → (Qc_of_Z (k + 10) ≤ d)%Qc →
   currentTime (Binary64.skipBackward (Binary64.skipForward video st)) =
     of_Z k) ∧
  (10 ≤ k → (Qc_of_Z k ≤ d)%Qc →
   currentTime (Binary64.skipForward video (Binary64.skipBackward st)) =
     of_Z k).
Proof.
  intros Hv Hc Hd. split; intros Hk Hkd.
  - assert (Hle : k + 10 ≤ 2 ^ 52).
    { apply (proj2 (Z2Qc_inj_le _ _)). by etrans. }
    destruct (skipForward_whole st v k Hv Hc) as (v' & Hv' & Hc'); [lia|].
    rewrite Math_min_whole in Hc'.
    rewrite bool_decide_eq_false_2 in Hc' by by apply Qcle_not_lt.
    destruct (skipBackward_whole _ v' _ Hv' Hc') as (_ & _ & ->); [lia|].
    apply (f_equal of_Z). lia.
  - assert (Hle : k ≤ 2 ^ 52).
    { apply (proj2 (Z2Qc_inj_le _ _)). by etrans. }
    destruct (skipBackward_whole st v k Hv Hc) as (v' & Hv' & Hc'); [lia|].
    destruct (skipForward_whole _ v' _ Hv' Hc') as (_ & _ & ->); [lia|].
    rewrite Math_min_whole.
    replace (Z.max (k - 10) 0 + 10) with k by lia.
    by rewrite bool_decide_eq_false_2 by by apply Qcle_not_lt.
Qed.

End Skips.

Lemma skips_add_up_witness :
  currentTime (Nat.iter 3 (Binary64.skipForward mockVideo) (bound_at 130)) =
    Math_min (of_Z (130 + 10 * Z.of_nat 3)) (Fin (Qc_of_Z 154)) ∧
  currentTime (Nat.iter 3 Binary64.skipBackward (bound_at 130)) =
    of_Z (Z.max (130 - 10 * Z.of_nat 3) 0).
Proof.
  apply (skips_add_up mockVideo (Qc_of_Z 154) eq_refl 3 (bound_at 130)
           (video_at 130) 130 eq_refl eq_refl);
    [lia | discriminate | discriminate].
Defined.

Lemma skips_undo_witness :
  currentTime
    (Binary64.skipBackward (Binary64.skipForward mockVideo (bound_at 100))) =
    of_Z 100 ∧
  currentTime
    (Binary64.skipForward mockVideo (Binary64.skipBackward (bound_at 100))) =
    of_Z 100.
Proof.
  destruct (skips_undo mockVideo (Qc_of_Z 154) eq_refl (bound_at 100)
              (video_at 100) 100 eq_refl eq_refl) as [H1 H2]; [discriminate|].
  split; [apply H1 | apply H2]; first [lia | discriminate].
Defined.

(** Three skips forward from 130 seconds end at the 154 seconds of the
    media, and near the end the skips do not undo each other: from 150
    seconds, forward and backward end at 144. *)
Example skips_near_the_end :
  currentTime (Nat.iter 3 (Binary64.skipForward mockVideo) (bound_at 130)) =
    of_Z 154 ∧
  currentTime
    (Binary64.skipBackward (Binary64.skipForward mockVideo (bound_at 150))) =
    of_Z 144.
Proof. split; apply Fin_eq_bool; vm_compute; reflexivity. Qed.

(** Off the whole seconds the skips need not undo each other either:
    from the double next to 0.1, forward and backward end at the
    double that prints as 0.09999999999999964. *)
Example skips_from_01 :
  ∃ c : Qc,
    Binary64.round (of_Q 0.1) = Fin c ∧
    currentTime
      (Binary64.skipBackward
         (Binary64.skipForward mockVideo
            (setCurrentTime (Fin c) bound))) =
      Fin (Q2Qc (c - 13 * Binary64.pow2 (-55))).
Proof.
  eexists. split; [reflexivity|]. apply Fin_eq_bool. vm_compute. reflexivity.
Qed.

(** *** Selecting an element *)

(** X11. A click on an element of the timeline makes it the selection
    of the terminal, with its type, id, start and end and with the
    element itself as data. In the timeline that is rendered next, that
    element is drawn with the white border, in front, and every element
    of another id or another track is drawn without a border, behind;
    the playback is not touched, and no scrub is emitted. *)
Theorem click_selects_element (video : VideoData)
    (element : Timeline.TimelineElement) (st : State) :
  let st' := callbacks (Timeline.elementClick element) st in
  let props' := timelineProps video st' in
  selectedElement st' =
    {| sel_type := Some (Timeline.type element);
       sel_id := Some (Timeline.id element);
       timeStart := Some (Timeline.start element);
       timeEnd := Some (Timeline.end_ element);
       data := Some (Timeline.as_object element) |} ∧
  Timeline.border (Timeline.getElementStyle props' element) =
    "2px solid white" ∧
  Timeline.zIndex (Timeline.getElementStyle props' element) = 10 ∧
  (∀ other,
     Timeline.id other ≠ Timeline.id element ∨
     Timeline.type other ≠ Timeline.type element →
     Timeline.border (Timeline.getElementStyle props' other) = "none" ∧
     Timeline.zIndex (Timeline.getElementStyle props' other) = 1) ∧
  currentTime st' = currentTime st ∧ isPlaying st' = isPlaying st ∧
  videoRef st' = videoRef st.
Proof.
  cbv zeta. split; [done|].
  assert (Hsel : Timeline.isSelected
                   (timelineProps video
                      (callbacks (Timeline.elementClick element) st))
                   element = true).
  { unfold Timeline.isSelected. cbn. by rewrite !bool_decide_eq_true_2. }
  unfold Timeline.getElementStyle. cbn [Timeline.border Timeline.zIndex].
  rewrite Hsel. split; [done|]. split; [done|]. split; [|done].
  intros other Hother.
  assert (Timeline.isSelected
            (timelineProps video
               (callbacks (Timeline.elementClick element) st))
            other = false) as ->; [|done].
  unfold Timeline.isSelected. cbn. apply andb_false_iff.
  destruct Hother as [H | H]; [left | right];
    apply bool_decide_eq_false; congruence.
Qed.

(** *** Scrolling *)

(** X12. A scroll event of the track hands the scroll offset of the
    track to the terminal, which hands it back as the [scrollX] prop;
    the effect that copies the prop into the track then finds nothing
    to change, so that a scroll does not feed back. *)
Theorem scroll_does_not_feed_back (video : VideoData) (tl : Timeline.State)
    (el : Timeline.HTMLDivElement) (st : State) :
  Timeline.timelineRef tl = Some el →
  let st' := callbacks (Timeline.handleScroll tl) st in
  timelineScrollX st' = Timeline.scrollLeft el ∧
  Timeline.syncScroll (timelineProps video st') tl = tl.
Proof.
  intros Hel. cbv zeta. unfold Timeline.handleScroll, Timeline.syncScroll.
  rewrite Hel. cbn. split; [done|].
  destruct (negb _); [|done].
  destruct tl as [dr x0 s0 ref]. cbn in *. subst ref. by destruct el.
Qed.

Lemma scroll_does_not_feed_back_witness :
  timelineScrollX
    (callbacks (Timeline.handleScroll (mounted 100)) bound) =
    of_Z 100 ∧
  Timeline.syncScroll
    (timelineProps mockVideo
       (callbacks (Timeline.handleScroll (mounted 100)) bound))
    (mounted 100) = mounted 100.
Proof.
  apply (scroll_does_not_feed_back mockVideo (mounted 100) (track_at 100) bound).
  reflexivity.
Defined.

(** *** Clicking on the track *)

(** X13. In double precision, a click on the mounted, idle track
    inside the content, at a pixel between zero and the total width,
    seeks to a time between zero and the duration, for a duration and
    a total width above zero: the seek does not clamp, and such a
    click does not need it.  The two roundings of
    [(x / totalWidth) * duration] cannot lead out of the range, since
    1 and the duration are numbers of the program. *)
Theorem click_inside_seeks_inside (video : VideoData) (d w x : Qc)
    (tl : Timeline.State) (el : Timeline.HTMLDivElement) (clientX : number)
    (st : State) (v : HTMLVideoElement) :
  duration video = Fin d → Binary64.representable d → (0 < d)%Qc →
  Binary64.totalWidth (timelineProps video st) = Fin w → (0 < w)%Qc →
  Timeline.timelineRef tl = Some el → Timeline.isDragging tl = false →
  videoRef st = Some v →
  (clientX - Timeline.rect_left el + Timeline.scrollLeft el)%double = Fin x →
  (0 ≤ x ≤ w)%Qc →
  ∃ t, currentTime (Binary64.timelineClick video clientX tl st) = Fin t ∧
       (0 ≤ t ≤ d)%Qc.
Proof.
  intros Hd Hrep Hd0 Hw Hw0 Hel Hdrag Hv Hx [Hx0 Hxw].
  unfold Binary64.timelineClick, Binary64.handleTimelineClick.
  rewrite Hel, Hdrag, Hx. unfold Binary64.pixelsToTime. rewrite Hw.
  cbn [Timeline.duration timelineProps]. rewrite Hd.
  unfold Binary64.div. rewrite (div_pos x w Hw0).
  assert (E : ((x / w)%Qc == x / w)%Q).
  { unfold Qcdiv, Qcmult, Qcinv, Q2Qc. cbn [this].
    by rewrite !Qred_correct. }
  change (0 <= x)%Q in Hx0. change (x <= w)%Q in Hxw.
  change (0 < w)%Q in Hw0. change (0 < d)%Q in Hd0.
  destruct (Binary64Facts.round_between (x / w)%Qc (Qc_of_Z 1))
    as (q & -> & Hq0 & Hq1).
  { rewrite E. apply Qle_shift_div_l; [done|]. lra. }
  { rewrite E. apply Qle_shift_div_r; [done|].
    change (this (Qc_of_Z 1)) with 1%Q. lra. }
  { by apply (Binary64Facts.round_Z 1). }
  change (this (Qc_of_Z 1)) with 1%Q in Hq1.
  unfold Binary64.mul. cbn [JS.mul].
  assert (E' : ((q * d)%Qc == q * d)%Q) by apply Qred_correct.
  destruct (Binary64Facts.round_between (q * d)%Qc d)
    as (t & -> & Ht0 & Ht1); [rewrite E'; nra.. | done |].
  unfold callbacks, callback, handleTimelineScrub. cbn [fold_left].
  rewrite (BlueprintTerminalFacts.seekTo_bound (Fin _) st v Hv eq_refl).
  cbn [currentTime]. by exists t.
Qed.

Lemma click_inside_seeks_inside_witness :
  ∃ t, currentTime (Binary64.timelineClick mockVideo (of_Z 3850) (mounted 0)
                      bound) = Fin t ∧
       (0 ≤ t ≤ Qc_of_Z 154)%Qc.
Proof.
  apply (click_inside_seeks_inside mockVideo (Qc_of_Z 154) (Qc_of_Z 7700)
           (Qc_of_Z 3850) (mounted 0) (track_at 0) (of_Z 3850) bound
           (video_at 0)); try reflexivity.
  - by apply (Binary64Facts.round_Z 154).
  - apply Fin_eq_bool. vm_compute. reflexivity.
  - apply Fin_eq_bool. vm_compute. reflexivity.
  - split; discriminate.
Defined.

(** A click in the middle of the track of 7700 pixels seeks to the
    middle of the 154 seconds. *)
Example click_in_the_middle :
  currentTime (Binary64.timelineClick mockVideo (of_Z 3850) (mounted 0) bound) =
    of_Z 77.
Proof. apply Fin_eq_bool. vm_compute. reflexivity. Qed.

End TerminalSeeking.

(** ** The realtime relay: what its connections receive *)

Module RelayInvariants.

Import Relay Notions.

Section Runs.

Variable RawData : Type.
Variable toString : RawData → string.

Abbreviation on_message := (on_message RawData toString).
Abbreviation run := (run RawData toString).
Abbreviation step := (step RawData toString).
Abbreviation from_others := (Notions.from_others toString).

Lemma greeted_step (wss : WebSocketServer) (e : event RawData) :
  greeted wss → greeted (step wss e).
Proof.
  intros Hg k client. destruct e as [c | c m | c | c]; cbn [step].
  - unfold on_connection. cbn [clients].
    destruct (decide (c = k)) as [-> | Hne].
    + rewrite lookup_insert_eq. intros [= <-]. by exists [].
    + rewrite lookup_insert_ne by done. apply Hg.
  - rewrite (RelayFacts.lookup_on_message RawData toString).
    destruct (clients wss !! k) as [cl|] eqn:E; [|done].
    destruct (Hg k cl E) as [rest Hrest]. cbn. intros [= <-].
    destruct (_ && _); [|by exists rest].
    exists (rest ++ [toString m]). cbn. by rewrite Hrest.
  - unfold on_closing. cbn [clients].
    destruct (decide (c = k)) as [-> | Hne].
    + rewrite lookup_alter_eq.
      destruct (clients wss !! k) as [cl|] eqn:E; [|done].
      cbn. intros [= <-]. apply (Hg k cl E).
    + rewrite lookup_alter_ne by done. apply Hg.
  - unfold on_close. cbn [clients]. intros H.
    apply lookup_delete_Some in H as [_ H]. by apply (Hg k).
Qed.

(** X14. Whatever events follow the creation of the relay, the first
    text that was sent to every connection it holds is the welcome. *)
Theorem welcome_comes_first (es : list (event RawData)) :
  match ws (handler {| ws := None |}) with
  | Some wss =>
      ∀ k client, clients (run es wss) !! k = Some client →
        ∃ rest, sent client = welcome :: rest
  | None => False
  end.
Proof.
  cbn [handler ws].
  assert (H : ∀ wss, greeted wss → greeted (run es wss)).
  { induction es as [|e es IH]; intros wss Hg; [done|].
    cbn. apply IH. by apply greeted_step. }
  apply H. intros k client Hk. cbn in Hk. by rewrite lookup_empty in Hk.
Qed.

(** X15. An open connection receives the messages of the other
    connections completely and in order: after any sequence of
    messages, what was sent to it is what had been sent before,
    followed by the texts of the messages that other connections sent,
    one for each, in the order of arrival; its own messages are not
    among them, and it is still open. *)
Theorem messages_arrive_in_order (ms : list (nat * RawData))
    (wss : WebSocketServer) (k : nat) (client : WebSocket) :
  clients wss !! k = Some client →
  readyState client = OPEN →
  clients (run (messages RawData ms) wss) !! k =
    Some {| readyState := OPEN;
            sent := sent client ++ from_others k ms |}.
Proof.
  revert wss client. induction ms as [|[c m] ms IH]; intros wss client Hk Hopen.
  - cbn. rewrite Hk, app_nil_r. f_equal. destruct client; cbn in *. by subst.
  - cbn [messages map fold_left Relay.run]. cbn [Relay.step fst snd].
    fold (messages RawData ms). fold (run (messages RawData ms) (on_message c m wss)).
    unfold Notions.from_others. rewrite filter_cons. cbn [fst].
    destruct (decide (c = k)) as [-> | Hne].
    + rewrite decide_False by (intros H; by apply H).
      apply IH; [|done].
      rewrite (RelayFacts.lookup_on_message RawData toString), Hk. cbn.
      by rewrite bool_decide_eq_false_2 by (intros H; by apply H).
    + rewrite decide_True by done. cbn [fmap list_fmap snd].
      rewrite (IH (on_message c m wss) (send (toString m) client)).
      * cbn. by rewrite <- app_assoc.
      * rewrite (RelayFacts.lookup_on_message RawData toString), Hk. cbn.
        by rewrite !bool_decide_eq_true_2.
      * done.
Qed.

(** X16. A connection that closes is taken out of the relay without a
    word to the others: what was sent to every other connection is
    unchanged by the close, and the messages that follow reach the
    closed connection no more. *)
Theorem close_is_silent (c : nat) (ms : list (nat * RawData))
    (wss : WebSocketServer) :
  (∀ k, k ≠ c → clients (on_close c wss) !! k = clients wss !! k) ∧
  clients (run (close RawData c :: messages RawData ms) wss) !! c = None.
Proof.
  split.
  - intros k Hk. unfold on_close. cbn. by rewrite lookup_delete_ne.
  - cbn [Relay.run fold_left Relay.step].
    assert (H : ∀ w, clients w !! c = None →
                     clients (run (messages RawData ms) w) !! c = None).
    { induction ms as [|[c' m] ms IH]; intros w Hw; [done|].
      cbn [messages map fold_left Relay.run Relay.step fst snd].
      apply IH. by rewrite (RelayFacts.lookup_on_message RawData toString), Hw. }
    apply H. unfold on_close. cbn. by rewrite lookup_delete_eq.
Qed.

End Runs.

Lemma messages_arrive_in_order_witness :
  clients
    (run string id (messages string [(1%nat, "a"); (2%nat, "b"); (3%nat, "c")])
       (run string id [connection string 1; connection string 2]
          {| clients := ∅ |})) !! 2%nat =
  Some {| readyState := OPEN; sent := [welcome; "a"; "c"] |}.
Proof.
  rewrite (messages_arrive_in_order string id
             [(1%nat, "a"); (2%nat, "b"); (3%nat, "c")] _ 2%nat
             {| readyState := OPEN; sent := [welcome] |});
    reflexivity.
Defined.

End RelayInvariants.

(** ** The dashboard: the range of the average *)

Module DashboardBounds.

Import JS NumberFacts Dashboard Scenarios Notions.

(** The scores of a list are percentages. *)
Lemma sum_percentages (scores : list number) :
  Forall (λ x, ∃ q, x = Fin q ∧ (0 ≤ q ≤ Qc_of_Z 100)%Qc) scores →
  ∃ s, Design.sum scores = Fin s ∧
       (0 ≤ s ≤ Qc_of_Z 100 * Qc_of_Z (Z.of_nat (length scores)))%Qc.
Proof.
  induction 1 as [|x scores (q & -> & Hq0 & Hq) _ (s & Hs & Hs0 & Hs1)].
  - exists (Qc_of_Z 0). split; [done|]. split; discriminate.
  - cbn [Design.sum length]. rewrite Hs, add_Fin. eexists. split; [done|].
    rewrite Nat2Z.inj_succ, <- Z.add_1_r, Z2Qc_inj_add.
    set (n := Qc_of_Z (Z.of_nat (length scores))) in *. clearbody n.
    split; qc2q; lra.
Qed.

Lemma completed_scores_percentages (records : list Blueprint) :
  Forall
    (λ b, status b = completed →
          ∃ q, clarityScore b = Fin q ∧ (0 ≤ q ≤ Qc_of_Z 100)%Qc)
    records →
  Forall (λ x, ∃ q, x = Fin q ∧ (0 ≤ q ≤ Qc_of_Z 100)%Qc)
    (Design.completed_scores records).
Proof.
  induction 1 as [|b records Hb _ IH]; [constructor|].
  cbn [Design.completed_scores]. unfold Design.is_status.
  case_bool_decide; [constructor|]; auto.
Qed.

Lemma round_percentage (x : Qc) :
  (0 ≤ x ≤ Qc_of_Z 100)%Qc →
  0 ≤ Qfloor (x + Q2Qc (1 # 2))%Qc ≤ 100.
Proof.
  intros [H0 H100]. split.
  - change 0 with (Qfloor 0). apply Qfloor_resp_le. qc2q. lra.
  - change 100 with (Qfloor (201 # 2)). apply Qfloor_resp_le. qc2q. lra.
Qed.

(** X17. When the clarity score of every completed record is a
    percentage, a number between 0 and 100, the average on the
    dashboard is a whole number between 0 and 100, whatever the scores
    of the other records are. *)
Theorem average_is_a_percentage (blueprints : list Blueprint) :
  Forall
    (λ b, status b = completed →
          ∃ q, clarityScore b = Fin q ∧ (0 ≤ q ≤ Qc_of_Z 100)%Qc)
    blueprints →
  ∃ n : Z, averageClarityScore (Some blueprints) = of_Z n ∧ 0 ≤ n ≤ 100.
Proof.
  intros H. rewrite DashboardFacts.averageClarityScore_design.
  change (validBlueprints (Some blueprints)) with blueprints.
  unfold Design.averageClarity.
  pose proof (completed_scores_percentages blueprints H) as Hs.
  destruct (Design.completed_scores blueprints) as [|x scores] eqn:E.
  - exists 0. by split.
  - destruct (sum_percentages _ Hs) as (s & Hsum & Hs0 & Hs1).
    unfold Design.mean. rewrite Hsum. unfold of_nat, of_Z.
    assert (Hn : (0 < Qc_of_Z (Z.of_nat (length (x :: scores))))%Qc).
    { rewrite <- Z2Qc_inj_0.
      apply (proj1 (Z2Qc_inj_lt 0 (Z.of_nat (length (x :: scores))))).
      cbn [length]. lia. }
    rewrite (div_pos _ _ Hn). cbn [Math_round].
    eexists. split; [done|]. apply round_percentage.
    set (n := Qc_of_Z (Z.of_nat (length (x :: scores)))) in *. clearbody n.
    assert (Ht : (s / n * n = s)%Qc) by (field; by apply Qc_pos_neq).
    set (t := (s / n)%Qc) in *. clearbody t. subst s.
    split; apply Qcle_ngt; intros Hbad.
    + assert ((t * n < 0)%Qc); [|by apply Qcle_ngt in Hs0]. qc2q. nra.
    + assert ((Qc_of_Z 100 * n < t * n)%Qc); [|by apply Qcle_ngt in Hs1].
      qc2q. nra.
Qed.

Lemma average_is_a_percentage_witness :
  ∃ n : Z,
    averageClarityScore
      (Some [record completed 80; record failed 1000; record completed 61]) =
      of_Z n ∧
    0 ≤ n ≤ 100.
Proof.
  apply average_is_a_percentage.
  repeat constructor; intros Hs; try discriminate Hs;
    eexists; (split; [reflexivity|]); split; discriminate.
Defined.

(** The average of the scores 80 and 61 is 71: the half is rounded
    up. *)
Example average_rounds_half_up :
  averageClarityScore (Some [record completed 80; record completed 61]) =
    of_Z 71.
Proof. number_eq. Qed.

End DashboardBounds.

(** ** The error boundary *)

Module ErrorBoundaryFacts.

Import PropertiesPanel ErrorBoundary Scenarios.

(** X18. Outside of a development build the fallback of the error
    boundary shows nothing of the error: after any two errors, and over
    any children, it renders the same, and the text it shows is the
    apology alone. Before an error the boundary renders its children
    as they are. *)
Theorem fallback_hides_error (NODE_ENV : string) (e1 e2 : Error)
    (children1 children2 : node) :
  NODE_ENV ≠ "development" →
  render NODE_ENV children1 (getDerivedStateFromError e1) =
    render NODE_ENV children2 (getDerivedStateFromError e2) ∧
  textContent (render NODE_ENV children1 (getDerivedStateFromError e1)) =
    "Oops! Something went wrong." +:+
    "We apologize for the inconvenience. Please try again later." ∧
  render NODE_ENV children1 initial = children1.
Proof.
  intros Henv. unfold render, details. cbn [hasError getDerivedStateFromError initial].
  by rewrite bool_decide_eq_false_2.
Qed.

Lemma fallback_hides_error_witness :
  render "production" (text "page") (getDerivedStateFromError failure) =
    render "production" (text "other page")
      (getDerivedStateFromError
         {| message := "secret"; stack := None |}) ∧
  textContent
    (render "production" (text "page") (getDerivedStateFromError failure)) =
    "Oops! Something went wrong." +:+
    "We apologize for the inconvenience. Please try again later." ∧
  render "production" (text "page") initial = text "page".
Proof.
  apply (fallback_hides_error "production" failure
           {| message := "secret"; stack := None |} (text "page")
           (text "other page")).
  discriminate.
Defined.

(** In a development build the fallback shows the message and the
    stack of the error. *)
Example fallback_in_development :
  lines (details "development" (getDerivedStateFromError failure)) =
    ["Error Details:"; "Message: boom"; "Stack: at render"].
Proof. reflexivity. Qed.

End ErrorBoundaryFacts.

(** ** The format of a time *)

Module FormatTimeFacts.

Import JS NumberFacts Scenarios Notions.

Lemma Qfloor_unique (x : Q) (m : Z) :
  (inject_Z m <= x)%Q → (x < inject_Z (m + 1))%Q → Qfloor x = m.
Proof.
  intros H1 H2. pose proof (Qfloor_le x) as H3. pose proof (Qlt_floor x) as H4.
  assert (Qfloor x < m + 1).
  { rewrite Zlt_Qlt. eapply Qle_lt_trans; eassumption. }
  assert (m < Qfloor x + 1).
  { rewrite Zlt_Qlt. eapply Qle_lt_trans; eassumption. }
  lia.
Qed.

Lemma this_Qc_of_Z (k : Z) : this (Qc_of_Z k) = inject_Z k.
Proof. reflexivity. Qed.

Lemma Qfloor_Qc_of_Z (k : Z) : Qfloor (Qc_of_Z k) = k.
Proof. rewrite this_Qc_of_Z. apply Qfloor_Z. Qed.

Lemma Qctrunc_Qc_of_Z (k : Z) : Qctrunc (Qc_of_Z k) = k.
Proof.
  unfold Qctrunc. destruct (Qcsgn (Qc_of_Z k)); rewrite ?Qfloor_Qc_of_Z; try done.
  rewrite this_Qc_of_Z. apply Qceiling_Z.
Qed.

(** A whole number prints as its decimal digits. *)
Lemma toString_of_Z (k : Z) : toString (of_Z k) = pretty k.
Proof.
  unfold toString, of_Z. cbv zeta. rewrite Qctrunc_Qc_of_Z.
  replace (Qc_of_Z k - Qc_of_Z k)%Qc with 0%Qc by ring.
  reflexivity.
Qed.

Lemma padStart_two_digits (k : Z) :
  0 ≤ k < 60 → padStart 2 "0" (pretty k) = two_digits k.
Proof.
  intros Hk.
  assert (H : forallb
                (λ n, bool_decide
                        (padStart 2 "0" (pretty (Z.of_nat n)) =
                         two_digits (Z.of_nat n)))
                (seq 0 60) = true) by (vm_compute; reflexivity).
  rewrite forallb_forall in H.
  specialize (H (Z.to_nat k)). rewrite Z2Nat.id in H by lia.
  eapply bool_decide_eq_true_1, H, in_seq. lia.
Qed.

(** The whole minutes and the whole seconds of a time that is not
    negative. *)
Lemma floor_minutes (q : Qc) :
  (0 ≤ q)%Qc → Qfloor (q / Qc_of_Z 60)%Qc = Qfloor q / 60.
Proof.
  intros Hq. pose proof (Qfloor_le q) as H1. pose proof (Qlt_floor q) as H2.
  pose proof (Z.div_mod (Qfloor q) 60 ltac:(lia)) as Hdm.
  pose proof (Z.mod_pos_bound (Qfloor q) 60 ltac:(lia)) as Hmod.
  set (n := Qfloor q) in *. set (m := n / 60) in *. set (r := n mod 60) in *.
  assert (Hn : (inject_Z n == 60 * inject_Z m + inject_Z r)%Q).
  { rewrite Hdm, inject_Z_plus, inject_Z_mult. reflexivity. }
  assert (Hr0 : (0 <= inject_Z r)%Q).
  { change 0%Q with (inject_Z 0). rewrite <- Zle_Qle. lia. }
  assert (Hr1 : (inject_Z r + 1 <= 60)%Q).
  { change 1%Q with (inject_Z 1). change 60%Q with (inject_Z 60).
    rewrite <- inject_Z_plus, <- Zle_Qle. lia. }
  rewrite inject_Z_plus in H2. change (inject_Z 1) with 1%Q in H2.
  clearbody n m r.
  apply Qfloor_unique; [|rewrite inject_Z_plus; change (inject_Z 1) with 1%Q];
    qc2q; unfold Qcinv, Q2Qc; cbn [this]; rewrite ?Qred_correct;
    change (/ (60 # 1))%Q with (1 # 60)%Q; lra.
Qed.

Lemma floor_seconds (q : Qc) :
  (0 ≤ q)%Qc →
  Qfloor (q - Qc_of_Z 60 * Qc_of_Z (Qfloor q / 60))%Qc = Qfloor q mod 60.
Proof.
  intros Hq. pose proof (Qfloor_le q) as H1. pose proof (Qlt_floor q) as H2.
  pose proof (Z.div_mod (Qfloor q) 60 ltac:(lia)) as Hdm.
  set (n := Qfloor q) in *. set (m := n / 60) in *. set (r := n mod 60) in *.
  assert (Hn : (inject_Z n == 60 * inject_Z m + inject_Z r)%Q).
  { rewrite Hdm, inject_Z_plus, inject_Z_mult. reflexivity. }
  rewrite inject_Z_plus in H2. change (inject_Z 1) with 1%Q in H2.
  clearbody n m r.
  apply Qfloor_unique; [|rewrite inject_Z_plus; change (inject_Z 1) with 1%Q];
    qc2q; lra.
Qed.

Lemma trunc_minutes (q : Qc) :
  (0 ≤ q)%Qc → Qctrunc (q / Qc_of_Z 60)%Qc = Qfloor q / 60.
Proof.
  intros Hq. unfold Qctrunc. destruct (Qcsgn _) eqn:E;
    try by apply floor_minutes.
  exfalso. apply Qclt_alt in E. revert E. apply Qcle_ngt.
  qc2q. unfold Qcinv, Q2Qc. cbn [this]. rewrite ?Qred_correct.
  change (/ (60 # 1))%Q with (1 # 60)%Q. lra.
Qed.

Lemma formatTime_nonneg (q : Qc) :
  (0 ≤ q)%Qc →
  BlueprintTerminal.formatTime (Fin q) = minutes_seconds (Qfloor q).
Proof.
  intros Hq. unfold BlueprintTerminal.formatTime, minutes_seconds. cbv zeta.
  unfold of_Z at 1. rewrite div_pos by done. cbn [Math_floor].
  rewrite floor_minutes by done.
  change (toString (Fin (Qc_of_Z (Qfloor q / 60))))
    with (toString (of_Z (Qfloor q / 60))).
  rewrite toString_of_Z. do 2 f_equal.
  unfold rem, of_Z. rewrite (Qcsgn_Gt (Qc_of_Z 60)) by done.
  rewrite trunc_minutes by done. cbn [Math_floor].
  rewrite floor_seconds by done.
  change (toString (Fin (Qc_of_Z (Qfloor q mod 60))))
    with (toString (of_Z (Qfloor q mod 60))).
  rewrite toString_of_Z. apply padStart_two_digits.
  apply Z.mod_pos_bound. lia.
Qed.

(** X19. A time that is not negative is shown as its whole minutes, a
    colon, and its remaining whole seconds on two digits: the fraction
    of a second is dropped, the minutes are neither padded nor turned
    into hours. The terminal and the properties panel format a time
    alike. *)
Theorem formatTime_minutes_seconds (q : Qc) :
  (0 ≤ q)%Qc →
  BlueprintTerminal.formatTime (Fin q) = minutes_seconds (Qfloor q) ∧
  PropertiesPanel.formatTime (Fin q) = minutes_seconds (Qfloor q).
Proof. intros Hq. split; by apply formatTime_nonneg. Qed.

Lemma formatTime_minutes_seconds_witness :
  BlueprintTerminal.formatTime (of_Q 154.7) = "2:34" ∧
  PropertiesPanel.formatTime (of_Q 154.7) = "2:34".
Proof.
  apply (formatTime_minutes_seconds (Q2Qc 154.7)). discriminate.
Defined.

(** An hour is shown as sixty minutes, and a time that is not a number
    as "NaN:NaN". *)
Example formatTime_hour :
  BlueprintTerminal.formatTime (of_Z 3600) = "60:00" ∧
  BlueprintTerminal.formatTime NaN = "NaN:NaN".
Proof. split; reflexivity. Qed.

End FormatTimeFacts.

(** ** The properties panel and the timeline *)

Module PanelOfTimeline.

Import JS NumberFacts PropertiesPanel Scenarios Notions.

(** The fields of the data of a clicked element: its text is there, and
    none of the score, scene, description, title and volume that the
    panel looks for. *)
Lemma as_object_fields (el : Timeline.TimelineElement) :
  get_opt (Some (Timeline.as_object el)) "text" =
    VString (Timeline.text el) ∧
  get_opt (Some (Timeline.as_object el)) "score" = VUndefined ∧
  get_opt (Some (Timeline.as_object el)) "scene" = VUndefined ∧
  get_opt (Some (Timeline.as_object el)) "description" = VUndefined ∧
  get_opt (Some (Timeline.as_object el)) "title" = VUndefined ∧
  get_opt (Some (Timeline.as_object el)) "volume" = VUndefined.
Proof.
  unfold get_opt, get, Timeline.as_object.
  destruct (Timeline.colorClass el); cbv zeta;
    repeat split;
    repeat (rewrite lookup_insert_ne by discriminate);
    by rewrite ?lookup_insert_eq, ?lookup_empty.
Qed.

(** X20. For every element of the timeline, the panel that is rendered
    after a click on it is not the prompt; it is titled by the track of
    the element, and under "Specific Data" it shows the text of a
    narrative beat or of a clarity insight, and never a score, a scene,
    a description, a track title or a volume: the element that the
    timeline hands over as data has none of these fields, so that the
    score, the description and the volume read "N/A" and the scene and
    the track title are empty. *)
Theorem panel_of_clicked_element (el : Timeline.TimelineElement)
    (now total : number) (st : BlueprintTerminal.State) :
  let st' :=
    BlueprintTerminal.callbacks (Timeline.elementClick el) st in
  let sel := BlueprintTerminal.selectedElement st' in
  let props :=
    {| selectedElement := Some sel; currentTime := now; duration := total |} in
  PropertiesPanel props ≠ placeholder ∧
  (∃ content,
     PropertiesPanel props =
       element "div"
         [ element "Card"
             [ element "CardHeader"
                 [ element "CardTitle"
                     [text (displayTitle (Timeline.type el))] ];
               content ] ]) ∧
  lines (specific sel (Timeline.type el)) =
    "Specific Data" ::
    match Timeline.type el with
    | narrative => ["Text: " +:+ Timeline.text el; "Score: N/A"]
    | visual => ["Scene: "; "Description: N/A"]
    | audio => ["Track: "; "Volume: N/A"]
    | clarity => ["Insight: " +:+ Timeline.text el; "Score: N/A"]
    end.
Proof.
  cbv zeta. cbn [BlueprintTerminal.callbacks Timeline.elementClick fold_left
                 BlueprintTerminal.callback BlueprintTerminal.handleElementSelect
                 BlueprintTerminal.setSelectedElement
                 BlueprintTerminal.selectedElement].
  unfold PropertiesPanel. cbn [selectedElement sel_type].
  split; [discriminate|]. split.
  - eexists. reflexivity.
  - destruct (as_object_fields el) as (Ht & Hs & Hsc & Hd & Hti & Hv).
    unfold specific, elementSpecificData, scoreLine, volumeLine. cbn [data].
    destruct (Timeline.type el); cbn [lines map textContent strong];
      rewrite ?Ht, ?Hs, ?Hsc, ?Hd, ?Hti, ?Hv; cbn [or_else truthy value_text];
      by rewrite ?PropertiesPanelFacts.append_nil_r.
Qed.

(** X21. The section "General" does not tell a missing field from an
    empty one: an id that is the empty string reads "N/A" like a
    missing id, and a start or an end that is 0 or NaN reads 0:00 like
    a missing one. *)
Theorem general_falsy_fields (ty : option track) (i : option string)
    (s e : option number) (d : option (gmap string value)) (t : track) :
  general
    {| sel_type := ty; sel_id := Some ""; timeStart := s; timeEnd := e;
       data := d |} t =
  general
    {| sel_type := ty; sel_id := None; timeStart := s; timeEnd := e;
       data := d |} t ∧
  general
    {| sel_type := ty; sel_id := i; timeStart := Some (of_Z 0);
       timeEnd := Some NaN; data := d |} t =
  general
    {| sel_type := ty; sel_id := i; timeStart := None; timeEnd := None;
       data := d |} t ∧
  lines
    (general
       {| sel_type := ty; sel_id := Some ""; timeStart := Some NaN;
          timeEnd := None; data := d |} t) =
    ["General"; "ID: N/A"; "Type: " +:+ track_name t; "Time: 0:00 - 0:00";
     "Duration: 0:00"].
Proof. split; [done|]. split; [done|]. by destruct t. Qed.

End PanelOfTimeline.
